(** * ingressL4: annotation extraction and leader lookup

    A shallow embedding of [core/pkg/ingress/controller/annotations.go]
    (the annotation extractor) and of the leader lookup exercised by
    [core/pkg/ingress/status/election_test.go], with the properties the
    specification states about them.

    Go values are modelled as follows.
    - [interface{}] is [option any]: [None] is the nil interface, [Some v] a
      value with a dynamic type.  A typed nil pointer stored in an interface
      is [Some (.. None)], which Go does not consider equal to nil.
    - [error] is [option error]: [None] is nil.
    - [map[string]T] is [gmap string T]; ranging over it visits the entries
      in an order Go leaves unspecified, so the loop of [Extract] is a fold
      over any list that is a permutation of the map's entries.
    - [glog] calls append structured lines to a log that is threaded through
      the loop.
    - a failed type assertion or a method call on a nil interface is a
      [Panics] outcome. *)

From stdpp Require Import gmap strings list fin_maps.

(** ** Package [errors] *)

Module errors.

(** Error values as the extractor can tell them apart: the sentinel for an
    annotation that is not there, and every other error, carried by its
    message. *)
Inductive error : Type :=
| ErrMissingAnnotations
| errorString (msg : string).

#[global] Instance error_eq_dec : EqDecision error.
Proof. solve_decision. Defined.

(** Modelled from the spec: [errors.IsMissingAnnotations] lives in
    [core/pkg/ingress/errors], which is not part of the sources at hand.
    The spec distinguishes exactly two categories, [MissingAnnotation]
    (expected absence) and any other error (a real fault). *)
Definition IsMissingAnnotations (e : error) : bool :=
  match e with
  | ErrMissingAnnotations => true
  | errorString _ => false
  end.

End errors.
Export errors.

(** [fmt.Errorf] with the verbs already substituted. *)
Definition Errorf (msg : string) : error := errorString msg.

(** ** The resource: [extensions.Ingress] *)

(** The object metadata the extractor touches. *)
Record Ingress : Type := mkIngress {
  Namespace : string;
  Name : string;
  Annotations : gmap string string
}.

Definition GetNamespace (ing : Ingress) : string := Namespace ing.
Definition GetName (ing : Ingress) : string := Name ing.

(** Modelled from the spec: [parser.GetStringAnnotation] lives in
    [core/pkg/ingress/annotations/parser], which is not part of the sources
    at hand.  It reads one raw annotation value; when the annotation is not
    there the value is the empty string (the sentinel the callers test) and
    the error is the missing-annotation one. *)
Definition GetStringAnnotation (name : string) (ing : Ingress)
  : string * option error :=
  match Annotations ing !! name with
  | Some val => (val, None)
  | None => ("", Some ErrMissingAnnotations)
  end.

(** Modelled from the spec: [DeniedKeyName] is a constant of package
    [controller] declared outside [annotations.go]; the spec names the
    reserved denial key ["Denied"]. *)
Definition DeniedKeyName : string := "Denied".

(** What a Go function call ends in: a returned value or a run-time panic. *)
Inductive panic : Type :=
| NilDereference        (* method call through a nil interface value *)
| InterfaceConversion.  (* [x.(T)] on a nil interface or another dynamic type *)

Inductive outcome (T : Type) : Type :=
| Returns (x : T)
| Panics (p : panic).
Arguments Returns {T} x.
Arguments Panics {T} p.

Section controller.

(** Types of packages that are not modelled: the two pointer targets the
    typed accessors return, [api.Secret], the dynamic values of the other
    parsers, and the two further capabilities of the configuration. *)
Context {Upstream AffinityConfig Secret Dyn AuthCertificate DefaultBackend : Type}.

(** A non-nil [interface{}] value. *)
Inductive any : Type :=
| Bool (b : bool)                                  (* bool *)
| UpstreamPtr (p : option Upstream)                (* pointer to healthcheck.Upstream *)
| AffinityConfigPtr (p : option AffinityConfig)    (* pointer to sessionaffinity.AffinityConfig *)
| Error (e : error)                                (* an error stored as a value *)
| Other (d : Dyn).                                 (* any other dynamic type *)

(** [parser.IngressAnnotation]: [Parse(ing) (interface{}, error)]. *)
Record IngressAnnotation : Type := mkParser {
  Parse : Ingress → option any * option error
}.

(** [resolver.Secret]: [GetSecret] takes a string and returns a pointer to [api.Secret] and an error. *)
Record resolver_Secret : Type := mkSecretResolver {
  GetSecret : string → option Secret * option error
}.

(** [extractorConfig] embeds three resolver interfaces. *)
Record extractorConfig : Type := mkConfig {
  cfg_AuthCertificate : AuthCertificate;
  cfg_DefaultBackend : DefaultBackend;
  cfg_Secret : resolver_Secret
}.

Record annotationExtractor : Type := mkExtractor {
  secretResolver : resolver_Secret;
  annotations : gmap string IngressAnnotation
}.

(** The [NewParser] constructors of the fourteen annotation packages, in
    the order of the registry literal.  Their code is outside the sources
    at hand, so they are parameters of the constructor. *)
Record parserPackages : Type := mkPackages {
  auth_NewParser : extractorConfig → IngressAnnotation;
  authreq_NewParser : IngressAnnotation;
  authtls_NewParser : extractorConfig → IngressAnnotation;
  cors_NewParser : IngressAnnotation;
  healthcheck_NewParser : extractorConfig → IngressAnnotation;
  ipwhitelist_NewParser : extractorConfig → IngressAnnotation;
  portinredirect_NewParser : extractorConfig → IngressAnnotation;
  proxy_NewParser : extractorConfig → IngressAnnotation;
  ratelimit_NewParser : IngressAnnotation;
  rewrite_NewParser : extractorConfig → IngressAnnotation;
  secureupstream_NewParser : IngressAnnotation;
  sessionaffinity_NewParser : IngressAnnotation;
  sslpassthrough_NewParser : IngressAnnotation;
  snippet_NewParser : IngressAnnotation
}.

Definition registryLiteral (pk : parserPackages) (cfg : extractorConfig)
  : list (string * IngressAnnotation) :=
  [ ("BasicDigestAuth", auth_NewParser pk cfg);
    ("ExternalAuth", authreq_NewParser pk);
    ("CertificateAuth", authtls_NewParser pk cfg);
    ("EnableCORS", cors_NewParser pk);
    ("HealthCheck", healthcheck_NewParser pk cfg);
    ("Whitelist", ipwhitelist_NewParser pk cfg);
    ("UsePortInRedirects", portinredirect_NewParser pk cfg);
    ("Proxy", proxy_NewParser pk cfg);
    ("RateLimit", ratelimit_NewParser pk);
    ("Redirect", rewrite_NewParser pk cfg);
    ("SecureUpstream", secureupstream_NewParser pk);
    ("SessionAffinity", sessionaffinity_NewParser pk);
    ("SSLPassthrough", sslpassthrough_NewParser pk);
    ("ConfigurationSnippet", snippet_NewParser pk) ].

Definition newAnnotationExtractor (pk : parserPackages) (cfg : extractorConfig)
  : annotationExtractor :=
  {| secretResolver := cfg_Secret cfg;
     annotations := list_to_map (registryLiteral pk cfg) |}.

(** *** [Extract] *)

(** The three [glog] calls of the loop, by source line. *)
Inductive logLine : Type :=
| V5_annotation (name ns nm : string) (val : option any)   (* glog.V(5).Infof, l.83 *)
| Errorf_reading (name ns nm : string) (err : error)       (* glog.Errorf,     l.92 *)
| V5_reading (name ns nm : string) (err : error).          (* glog.V(5).Infof, l.96 *)

(** [if val != nil { anns[name] = val }] *)
Definition storeVal (name : string) (val : option any) (anns : gmap string any)
  : gmap string any :=
  match val with
  | Some v => <[name := v]> anns
  | None => anns
  end.

(** One iteration of the [for name, annotationParser := range e.annotations]
    loop; [continue] is the early result of a branch. *)
Definition ExtractStep (ing : Ingress) (st : gmap string any * list logLine)
    (entry : string * IngressAnnotation) : gmap string any * list logLine :=
  let '(anns, log) := st in
  let '(name, annotationParser) := entry in
  let '(val, err) := Parse annotationParser ing in
  let log := log ++ [V5_annotation name (GetNamespace ing) (GetName ing) val] in
  match err with
  | Some err =>
      if IsMissingAnnotations err then (anns, log)
      else
        match anns !! DeniedKeyName with
        | None =>
            (<[DeniedKeyName := Error err]> anns,
             log ++ [Errorf_reading name (GetNamespace ing) (GetName ing) err])
        | Some _ =>
            (storeVal name val anns,
             log ++ [V5_reading name (GetNamespace ing) (GetName ing) err])
        end
  | None => (storeVal name val anns, log)
  end.

(** The loop over a given iteration order, from the fresh map. *)
Definition ExtractIn (order : list (string * IngressAnnotation)) (ing : Ingress)
  : gmap string any * list logLine :=
  foldl (ExtractStep ing) (∅, []) order.

(** An iteration order of a registry: its entries, each once, in any order. *)
Definition iterationOrder (e : annotationExtractor)
    (order : list (string * IngressAnnotation)) : Prop :=
  order ≡ₚ map_to_list (annotations e).

(** [Extract] returns [anns] (having logged [log]) when some iteration
    order of the registry yields it. *)
Definition Extract (e : annotationExtractor) (ing : Ingress)
    (anns : gmap string any) (log : list logLine) : Prop :=
  ∃ order, iterationOrder e order ∧ ExtractIn order ing = (anns, log).

(** A parser fails hard on a resource when it reports an error other than
    the missing-annotation one. *)
Definition hardFailure (ing : Ingress) (p : IngressAnnotation) : bool :=
  match (Parse p ing).2 with
  | Some err => negb (IsMissingAnnotations err)
  | None => false
  end.

(** What a parser leaves under its own name when no hard failure came
    before it: the value it returned if it reported no error (l.99-101),
    nothing if it reported one (the two [continue]s, l.86 and l.93). *)
Definition keptValue (ing : Ingress) (p : IngressAnnotation) : option any :=
  match Parse p ing with
  | (val, None) => val
  | (_, Some _) => None
  end.

(** The lines written with [glog.Errorf]. *)
Definition errorLevel (line : logLine) : bool :=
  match line with
  | Errorf_reading _ _ _ _ => true
  | _ => false
  end.

(** The parsers traced by the [glog.V(5)] call of l.83, with the values
    they returned, in the order of the log. *)
Definition annotationTrace (log : list logLine) : list (string * option any) :=
  omap (λ line, match line with
                | V5_annotation name _ _ val => Some (name, val)
                | _ => None
                end) log.

(** *** Typed accessors *)

Definition secureUpstream : string := "SecureUpstream".
Definition healthCheck : string := "HealthCheck".
Definition sslPassthrough : string := "SSLPassthrough".
Definition sessionAffinity : string := "SessionAffinity".

(** [val, _ := e.annotations[name].Parse(ing)]: indexing the map with a
    key it does not hold yields the nil interface, and the method call
    through it panics; the parser's error is dropped. *)
Definition parseNamed (e : annotationExtractor) (name : string) (ing : Ingress)
  : outcome (option any) :=
  match annotations e !! name with
  | Some annotationParser => let '(val, _) := Parse annotationParser ing in Returns val
  | None => Panics NilDereference
  end.

(** [return val.(bool)] *)
Definition assertBool (val : option any) : outcome bool :=
  match val with
  | Some (Bool b) => Returns b
  | _ => Panics InterfaceConversion
  end.

(** [return val.( *healthcheck.Upstream )] *)
Definition assertUpstream (val : option any) : outcome (option Upstream) :=
  match val with
  | Some (UpstreamPtr p) => Returns p
  | _ => Panics InterfaceConversion
  end.

(** [return val.( *sessionaffinity.AffinityConfig )] *)
Definition assertAffinityConfig (val : option any) : outcome (option AffinityConfig) :=
  match val with
  | Some (AffinityConfigPtr p) => Returns p
  | _ => Panics InterfaceConversion
  end.

Definition SecureUpstream (e : annotationExtractor) (ing : Ingress) : outcome bool :=
  match parseNamed e secureUpstream ing with
  | Returns val => assertBool val
  | Panics p => Panics p
  end.

Definition HealthCheck (e : annotationExtractor) (ing : Ingress)
  : outcome (option Upstream) :=
  match parseNamed e healthCheck ing with
  | Returns val => assertUpstream val
  | Panics p => Panics p
  end.

Definition SSLPassthrough (e : annotationExtractor) (ing : Ingress) : outcome bool :=
  match parseNamed e sslPassthrough ing with
  | Returns val => assertBool val
  | Panics p => Panics p
  end.

Definition SessionAffinity (e : annotationExtractor) (ing : Ingress)
  : outcome (option AffinityConfig) :=
  match parseNamed e sessionAffinity ing with
  | Returns val => assertAffinityConfig val
  | Panics p => Panics p
  end.

(** Modelled from the spec: the parsers of the packages [secureupstream],
    [healthcheck], [sslpassthrough] and [sessionaffinity] are not part of
    the sources at hand.  The spec has each typed accessor return "the typed
    value" of its parser, a parse failure yielding "the parser's
    zero/default value": whatever error they report, these four parsers
    return a value of the type their accessor declares. *)
Definition typedParsers (pk : parserPackages) (cfg : extractorConfig) : Prop :=
  (∀ ing, ∃ b, (Parse (secureupstream_NewParser pk) ing).1 = Some (Bool b))
  ∧ (∀ ing, ∃ u, (Parse (healthcheck_NewParser pk cfg) ing).1 = Some (UpstreamPtr u))
  ∧ (∀ ing, ∃ b, (Parse (sslpassthrough_NewParser pk) ing).1 = Some (Bool b))
  ∧ (∀ ing, ∃ a, (Parse (sessionaffinity_NewParser pk) ing).1 = Some (AffinityConfigPtr a)).

(** *** The certificate secret, read past the registry *)

Definition authTLSSecret : string := "ingress.kubernetes.io/auth-tls-secret".

Definition ContainsCertificateAuth (e : annotationExtractor) (ing : Ingress) : bool :=
  let '(val, _) := GetStringAnnotation authTLSSecret ing in
  negb (String.eqb val "").

Definition CertificateAuthSecret (e : annotationExtractor) (ing : Ingress)
  : option Secret * option error :=
  let '(val, _) := GetStringAnnotation authTLSSecret ing in
  if String.eqb val "" then
    (None,
     Some (Errorf ("ingress rule " +:+ Namespace ing +:+ "/" +:+ Name ing
                   +:+ " does not contain the auth-tls-secret annotation")))
  else GetSecret (secretResolver e) val.

End controller.

(** ** Package [status]: the leader lookup *)

(** Modelled from the spec: [resourcelock.LeaderElectionRecord] lives in
    [core/pkg/ingress/status/leaderelection/resourcelock], which is not part
    of the sources at hand; the fields are the ones the test fills in and
    the spec lists for the lock record.  Times are seconds. *)
Record LeaderElectionRecord : Type := mkRecord {
  HolderIdentity : string;
  LeaseDurationSeconds : Z;
  AcquireTime : Z;
  RenewTime : Z;
  LeaderTransitions : Z
}.

(** [api_v1.Endpoints], by the object metadata the test sets. *)
Record Endpoints : Type := mkEndpoints {
  ep_Name : string;
  ep_Namespace : string;
  ep_Annotations : gmap string string
}.

(** The client, by the one call the lookup makes:
    [c.Core().Endpoints(namespace).Get(name)]. *)
Record client : Type := mkClient {
  EndpointsGet : string → string → error + Endpoints
}.

(** [fake.NewSimpleClientset] over a list of endpoints: [Get] finds the
    object with that namespace and name, or reports that there is none. *)
Definition NewSimpleClientset (items : list Endpoints) : client :=
  {| EndpointsGet := λ namespace name,
       match
         find (λ ep, String.eqb (ep_Namespace ep) namespace
                     && String.eqb (ep_Name ep) name) items
       with
       | Some ep => inr ep
       | None => inl (errorString ("endpoints " +:+ name +:+ " not found"))
       end |}.

Section status.

(** [resourcelock.LeaderElectionRecordAnnotationKey] and [json.Unmarshal]
    into a [LeaderElectionRecord]: a constant of a package outside the
    sources at hand and a function of Go's standard library. *)
Context (LeaderElectionRecordAnnotationKey : string)
        (Unmarshal : string → error + LeaderElectionRecord).

(** Modelled from the spec: [getCurrentLeader] is defined in
    [core/pkg/ingress/status/election.go], which is not part of the
    sources at hand (only its test is).  The spec: read the resource
    through the store and look for the lock annotation; absent gives the
    empty identity, the resource and no error; present but not parseable
    as a lock record gives the empty identity, no resource and the parse
    error; present and well formed gives the record's holder identity, the
    resource and no error.  A failed read is passed on as it is. *)
Definition getCurrentLeader (electionID namespace : string) (c : client)
  : string * option Endpoints * option error :=
  match EndpointsGet c namespace electionID with
  | inl err => ("", None, Some err)
  | inr endpoints =>
      match ep_Annotations endpoints !! LeaderElectionRecordAnnotationKey with
      | None => ("", Some endpoints, None)
      | Some val =>
          match Unmarshal val with
          | inl err => ("", None, Some err)
          | inr electionRecord =>
              (HolderIdentity electionRecord, Some endpoints, None)
          end
      end
  end.

End status.

(** ** Sample inputs

    Concrete parsers, registries, resources and stores on which the
    properties below are exercised. *)

Module Samples.

(** The opaque types, instantiated. *)
Definition sAny : Type := @any nat nat string.
Definition sParser : Type := @IngressAnnotation nat nat string.
Definition sConfig : Type := @extractorConfig string unit unit.
Definition sExtractor : Type := @annotationExtractor nat nat string string.

(** A boolean annotation parser in the style of [sslpassthrough]: the
    annotation decides, anything but true or false is a fault. *)
Definition boolParser (annotation : string) : sParser :=
  mkParser (λ ing,
    match Annotations ing !! annotation with
    | None => (Some (Bool false), Some ErrMissingAnnotations)
    | Some "true" => (Some (Bool true), None)
    | Some "false" => (Some (Bool false), None)
    | Some _ => (Some (Bool false), Some (errorString ("invalid boolean in " +:+ annotation)))
    end).

(** A parser that yields nothing but a fault when its annotation is set. *)
Definition strictParser (annotation : string) : sParser :=
  mkParser (λ ing,
    match Annotations ing !! annotation with
    | None => (None, Some ErrMissingAnnotations)
    | Some "" => (None, Some (errorString ("empty value in " +:+ annotation)))
    | Some v => (Some (Other v), None)
    end).

(** A parser that always answers with a default object. *)
Definition defaultParser (v : sAny) : sParser := mkParser (λ _, (Some v, None)).

Definition sampleSecrets : resolver_Secret :=
  mkSecretResolver (λ name,
    if String.eqb name "default/ca" then (Some "ca-bundle", None)
    else (None, Some (errorString ("secret " +:+ name +:+ " does not exist")))).

Definition sampleConfig : sConfig := mkConfig tt tt sampleSecrets.

Definition samplePackages : @parserPackages nat nat string string unit unit :=
  {| auth_NewParser := λ _, strictParser "ingress.kubernetes.io/auth-type";
     authreq_NewParser := strictParser "ingress.kubernetes.io/auth-url";
     authtls_NewParser := λ _, strictParser "ingress.kubernetes.io/auth-tls-secret";
     cors_NewParser := boolParser "ingress.kubernetes.io/enable-cors";
     healthcheck_NewParser := λ _, defaultParser (UpstreamPtr (Some 5));
     ipwhitelist_NewParser := λ _, strictParser "ingress.kubernetes.io/whitelist-source-range";
     portinredirect_NewParser := λ _, boolParser "ingress.kubernetes.io/use-port-in-redirects";
     proxy_NewParser := λ _, defaultParser (Other "proxy defaults");
     ratelimit_NewParser := strictParser "ingress.kubernetes.io/limit-rps";
     rewrite_NewParser := λ _, strictParser "ingress.kubernetes.io/rewrite-target";
     secureupstream_NewParser := boolParser "ingress.kubernetes.io/secure-backends";
     sessionaffinity_NewParser := defaultParser (AffinityConfigPtr None);
     sslpassthrough_NewParser := boolParser "ingress.kubernetes.io/ssl-passthrough";
     snippet_NewParser := strictParser "ingress.kubernetes.io/configuration-snippet" |}.

Definition sampleExtractor : sExtractor :=
  newAnnotationExtractor samplePackages sampleConfig.

(** SSL passthrough is on; the client-certificate secret and the rate
    limit are empty; the CORS and secure-backends flags are not booleans. *)
Definition sampleIngress : Ingress :=
  {| Namespace := "default";
     Name := "web";
     Annotations :=
       {[ "ingress.kubernetes.io/ssl-passthrough" := "true";
          "ingress.kubernetes.io/auth-tls-secret" := "";
          "ingress.kubernetes.io/enable-cors" := "yes";
          "ingress.kubernetes.io/limit-rps" := "";
          "ingress.kubernetes.io/secure-backends" := "maybe" ]} |}.

(** The order of the registry literal, and the opposite one. *)
Definition literalOrder : list (string * sParser) :=
  registryLiteral samplePackages sampleConfig.
Definition reverseOrder : list (string * sParser) := reverse literalOrder.

(** A resource whose secure-backends flag is empty. *)
Definition faultyIngress : Ingress :=
  {| Namespace := "default";
     Name := "faulty";
     Annotations := {[ "ingress.kubernetes.io/secure-backends" := "" ]} |}.

(** A resource without annotations. *)
Definition plainIngress : Ingress :=
  {| Namespace := "default"; Name := "plain"; Annotations := ∅ |}.

(** A resource that names a client-certificate secret. *)
Definition tlsIngress (secret : string) : Ingress :=
  {| Namespace := "default";
     Name := "tls";
     Annotations := {[ "ingress.kubernetes.io/auth-tls-secret" := secret ]} |}.

(** The store of the tests of [election_test.go]. *)
Definition annotationKey : string := "control-plane.alpha.kubernetes.io/leader".

Definition fkER : LeaderElectionRecord :=
  {| HolderIdentity := "currentLeader";
     LeaseDurationSeconds := 30;
     AcquireTime := 1500000000;
     RenewTime := 1500000000;
     LeaderTransitions := 3 |}.

(** The record of the spec's scenario. *)
Definition recordA : LeaderElectionRecord :=
  {| HolderIdentity := "A";
     LeaseDurationSeconds := 30;
     AcquireTime := 1500000000;
     RenewTime := 1500000030;
     LeaderTransitions := 0 |}.

(** A stand-in for the JSON codec: it knows the payloads of the two
    records above and rejects every other text. *)
Definition leaderInfo : string := "json:fkER".
Definition leaderInfoA : string := "json:recordA".

Definition sampleUnmarshal (data : string) : error + LeaderElectionRecord :=
  if String.eqb data leaderInfo then inr fkER
  else if String.eqb data leaderInfoA then inr recordA
  else inl (errorString "invalid character looking for beginning of value").

Definition fkEndpoints (annotations : gmap string string) : Endpoints :=
  {| ep_Name := "ingress-controller-test";
     ep_Namespace := "kube-system";
     ep_Annotations := annotations |}.

Definition fk (annotations : gmap string string) : client :=
  NewSimpleClientset [fkEndpoints annotations].

End Samples.

(** * Properties of the extractor *)

Section controller_properties.

Context {Upstream AffinityConfig Secret Dyn AuthCertificate DefaultBackend : Type}.

Local Abbreviation any := (@any Upstream AffinityConfig Dyn).
Local Abbreviation IngressAnnotation := (@IngressAnnotation Upstream AffinityConfig Dyn).
Local Abbreviation annotationExtractor := (@annotationExtractor Upstream AffinityConfig Secret Dyn).
Local Abbreviation logLine := (@logLine Upstream AffinityConfig Dyn).

Implicit Types (ing : Ingress) (anns : gmap string any) (log : list logLine).
Implicit Types (order l : list (string * IngressAnnotation)).
Implicit Types (p : IngressAnnotation) (name k : string).
Implicit Types (val : option any) (v x : any) (err : error).
Implicit Types (e : annotationExtractor).

(** *** One iteration, case by case *)

Lemma ExtractStep_ok ing anns log name p val :
  Parse p ing = (val, None) →
  ExtractStep ing (anns, log) (name, p)
  = (storeVal name val anns,
     log ++ [V5_annotation name (GetNamespace ing) (GetName ing) val]).
Proof. intros HP. unfold ExtractStep. by rewrite HP. Qed.

Lemma ExtractStep_missing ing anns log name p val err :
  Parse p ing = (val, Some err) →
  IsMissingAnnotations err = true →
  ExtractStep ing (anns, log) (name, p)
  = (anns, log ++ [V5_annotation name (GetNamespace ing) (GetName ing) val]).
Proof. intros HP Hm. unfold ExtractStep. by rewrite HP, Hm. Qed.

Lemma ExtractStep_first_denial ing anns log name p val err :
  Parse p ing = (val, Some err) →
  IsMissingAnnotations err = false →
  anns !! DeniedKeyName = None →
  ExtractStep ing (anns, log) (name, p)
  = (<[DeniedKeyName := Error err]> anns,
     (log ++ [V5_annotation name (GetNamespace ing) (GetName ing) val])
     ++ [Errorf_reading name (GetNamespace ing) (GetName ing) err]).
Proof. intros HP Hm Hd. unfold ExtractStep. by rewrite HP, Hm, Hd. Qed.

Lemma ExtractStep_later_denial ing anns log name p val err :
  Parse p ing = (val, Some err) →
  IsMissingAnnotations err = false →
  is_Some (anns !! DeniedKeyName) →
  ExtractStep ing (anns, log) (name, p)
  = (storeVal name val anns,
     (log ++ [V5_annotation name (GetNamespace ing) (GetName ing) val])
     ++ [V5_reading name (GetNamespace ing) (GetName ing) err]).
Proof. intros HP Hm [x Hd]. unfold ExtractStep. by rewrite HP, Hm, Hd. Qed.

(** The four cases cover every iteration. *)
Lemma ExtractStep_cases ing anns log name p :
  ∃ anns' log',
    ExtractStep ing (anns, log) (name, p) = (anns', log ++ log') ∧
    (anns' = anns
     ∨ (anns !! DeniedKeyName = None ∧ hardFailure ing p = true
        ∧ ∃ err, (Parse p ing).2 = Some err ∧ anns' = <[DeniedKeyName := Error err]> anns)
     ∨ (∃ v, (Parse p ing).1 = Some v ∧ anns' = <[name := v]> anns
             ∧ (hardFailure ing p = true → is_Some (anns !! DeniedKeyName)))).
Proof.
  unfold hardFailure.
  destruct (Parse p ing) as [val [err|]] eqn:HP; cbn [fst snd].
  - destruct (IsMissingAnnotations err) eqn:Hm; cbn [negb].
    + rewrite (ExtractStep_missing _ _ _ _ _ _ _ HP Hm). eauto.
    + destruct (anns !! DeniedKeyName) as [d|] eqn:Hd.
      * rewrite (ExtractStep_later_denial _ _ _ _ _ _ _ HP Hm) by (rewrite Hd; eauto).
        rewrite <- app_assoc. do 2 eexists. split; [done|].
        destruct val as [v|]; simpl; [|by left].
        right; right. exists v. eauto.
      * rewrite (ExtractStep_first_denial _ _ _ _ _ _ _ HP Hm Hd).
        rewrite <- app_assoc. do 2 eexists. split; [done|].
        right; left. eauto.
  - rewrite (ExtractStep_ok _ _ _ _ _ _ HP).
    do 2 eexists. split; [done|].
    destruct val as [v|]; simpl; [|by left].
    right; right. exists v. split; [done|]. split; [done|]. discriminate.
Qed.

(** *** The loop *)

(** The snapshot does not depend on what has been logged. *)
Lemma ExtractStep_snapshot ing anns log1 log2 entry :
  (ExtractStep ing (anns, log1) entry).1 = (ExtractStep ing (anns, log2) entry).1.
Proof.
  destruct entry as [name p]. unfold ExtractStep.
  destruct (Parse p ing) as [val [err|]]; [|done].
  destruct (IsMissingAnnotations err); [done|].
  by destruct (anns !! DeniedKeyName).
Qed.

Lemma loop_snapshot ing l (st1 st2 : gmap string any * list logLine) :
  st1.1 = st2.1 →
  (foldl (ExtractStep ing) st1 l).1 = (foldl (ExtractStep ing) st2 l).1.
Proof.
  revert st1 st2. induction l as [|entry l IH]; intros [a1 l1] [a2 l2] Heq;
    cbn [foldl]; [done|].
  cbn [fst] in Heq. subst a2. apply IH, ExtractStep_snapshot.
Qed.

(** The log only grows. *)
Lemma loop_log ing l anns log :
  ∃ log', (foldl (ExtractStep ing) (anns, log) l).2 = log ++ log'.
Proof.
  revert anns log. induction l as [|[name p] l IH]; intros anns log; cbn [foldl].
  - exists []. by rewrite app_nil_r.
  - destruct (ExtractStep_cases ing anns log name p) as (anns' & log' & -> & _).
    destruct (IH anns' (log ++ log')) as [log'' ->].
    exists (log' ++ log''). by rewrite app_assoc.
Qed.

Lemma loop_log_elem ing l anns log (line : logLine) :
  line ∈ log → line ∈ (foldl (ExtractStep ing) (anns, log) l).2.
Proof.
  intros Hin. destruct (loop_log ing l anns log) as [log' ->].
  apply elem_of_app. by left.
Qed.

(** An entry stays as it is while the parsers that follow have other
    names: the denial key is written only while it is unset. *)
Lemma loop_preserved ing l anns log k x :
  anns !! k = Some x →
  k ∉ l.*1 →
  (foldl (ExtractStep ing) (anns, log) l).1 !! k = Some x.
Proof.
  revert anns log. induction l as [|[name p] l IH]; intros anns log Hk Hnin;
    cbn [foldl]; [done|].
  rewrite fmap_cons, not_elem_of_cons in Hnin. destruct Hnin as [Hne Hnin].
  destruct (ExtractStep_cases ing anns log name p) as (anns' & log' & -> & Hc).
  apply IH; [|done].
  destruct Hc as [-> | [(Hd & _ & err & _ & ->) | (v & _ & -> & _)]]; [done| |].
  - rewrite lookup_insert_ne; [done|]. intros <-. congruence.
  - rewrite lookup_insert_ne; [done|]. intros <-. by apply Hne.
Qed.

(** A key that is neither a parser's name nor the denial key is never
    written. *)
Lemma loop_untouched ing l anns log k :
  k ∉ l.*1 →
  k ≠ DeniedKeyName →
  (foldl (ExtractStep ing) (anns, log) l).1 !! k = anns !! k.
Proof.
  revert anns log. induction l as [|[name p] l IH]; intros anns log Hnin Hk;
    cbn [foldl]; [done|].
  rewrite fmap_cons, not_elem_of_cons in Hnin. destruct Hnin as [Hne Hnin].
  destruct (ExtractStep_cases ing anns log name p) as (anns' & log' & -> & Hc).
  rewrite IH by done.
  destruct Hc as [-> | [(_ & _ & err & _ & ->) | (v & _ & -> & _)]]; [done| |].
  - by rewrite lookup_insert_ne.
  - rewrite lookup_insert_ne; [done|]. intros <-. by apply Hne.
Qed.

(** Without a hard failure, and without a parser of that name, the denial
    key stays unset. *)
Lemma loop_no_denial ing l anns log :
  (∀ name p, (name, p) ∈ l → hardFailure ing p = false) →
  DeniedKeyName ∉ l.*1 →
  anns !! DeniedKeyName = None →
  (foldl (ExtractStep ing) (anns, log) l).1 !! DeniedKeyName = None.
Proof.
  revert anns log. induction l as [|[name p] l IH]; intros anns log Hsoft Hnin Hd;
    cbn [foldl]; [done|].
  rewrite fmap_cons, not_elem_of_cons in Hnin. destruct Hnin as [Hne Hnin].
  destruct (ExtractStep_cases ing anns log name p) as (anns' & log' & -> & Hc).
  apply IH; [|done|].
  - intros name' p' Hin. apply (Hsoft name' p'). by right.
  - destruct Hc as [-> | [(_ & Hhard & _) | (v & _ & -> & _)]]; [done| |].
    + rewrite (Hsoft name p) in Hhard by left. discriminate.
    + by rewrite lookup_insert_ne.
Qed.

(** Where an entry of the snapshot comes from: it was there before the
    loop, or it is the error of a hard failure under the denial key, or it
    is the value of the parser registered under that key. *)
Lemma loop_provenance ing l anns log k x :
  (foldl (ExtractStep ing) (anns, log) l).1 !! k = Some x →
  anns !! k = Some x
  ∨ (k = DeniedKeyName
     ∧ ∃ name p err, (name, p) ∈ l ∧ hardFailure ing p = true
                     ∧ (Parse p ing).2 = Some err ∧ x = Error err)
  ∨ (∃ p, (k, p) ∈ l ∧ (Parse p ing).1 = Some x).
Proof.
  revert anns log. induction l as [|[name p] l IH]; intros anns log;
    cbn [foldl]; [by left|].
  destruct (ExtractStep_cases ing anns log name p) as (anns' & log' & -> & Hc).
  intros Hk. destruct (IH _ _ Hk) as [Hk' | [(-> & n & q & err & Hin & ?) | (q & Hin & ?)]].
  - destruct Hc as [-> | [(_ & Hhard & err & HP & ->) | (v & HP & -> & _)]]; [by left| |].
    + destruct (decide (k = DeniedKeyName)) as [->|Hne].
      * rewrite lookup_insert_eq in Hk'. injection Hk' as <-.
        right; left. split; [done|]. exists name, p, err. by repeat split; [left|..].
      * rewrite lookup_insert_ne in Hk' by done. by left.
    + destruct (decide (k = name)) as [->|Hne].
      * rewrite lookup_insert_eq in Hk'. injection Hk' as <-.
        right; right. exists p. by split; [left|].
      * rewrite lookup_insert_ne in Hk' by done. by left.
  - right; left. split; [done|]. exists n, q, err. by split; [right|].
  - right; right. exists q. by split; [right|].
Qed.

Lemma loop_at ing (st : gmap string any * list logLine) pre name p post :
  foldl (ExtractStep ing) st (pre ++ (name, p) :: post)
  = foldl (ExtractStep ing) (ExtractStep ing (foldl (ExtractStep ing) st pre) (name, p)) post.
Proof. by rewrite foldl_app. Qed.

(** With distinct names, what the snapshot holds under a parser's name is
    what that parser's own iteration left there, and nothing was there
    before it. *)
Lemma loop_entry_at ing pre name p post :
  NoDup (pre ++ (name, p) :: post).*1 →
  name ≠ DeniedKeyName →
  (foldl (ExtractStep ing) (∅, []) pre).1 !! name = None
  ∧ (ExtractIn (pre ++ (name, p) :: post) ing).1 !! name
    = (ExtractStep ing (foldl (ExtractStep ing) (∅, []) pre) (name, p)).1 !! name.
Proof.
  intros Hnd Hne. rewrite fmap_app, fmap_cons in Hnd.
  apply NoDup_app in Hnd as (_ & Hpre & Hpost). apply NoDup_cons in Hpost as [Hpost _].
  split.
  - rewrite loop_untouched; [apply lookup_empty| |done].
    intros Hin. apply (Hpre _ Hin). by left.
  - unfold ExtractIn. rewrite loop_at.
    destruct (ExtractStep ing _ (name, p)) as [anns' log'].
    by apply loop_untouched.
Qed.

(** *** Iteration orders *)

Lemma iterationOrder_NoDup e order : iterationOrder e order → NoDup order.*1.
Proof.
  unfold iterationOrder. intros ->. apply NoDup_fst_map_to_list.
Qed.

Lemma iterationOrder_elem e order name p :
  iterationOrder e order → (name, p) ∈ order ↔ annotations e !! name = Some p.
Proof.
  unfold iterationOrder. intros ->. apply elem_of_map_to_list.
Qed.

Lemma iterationOrder_absent e order name :
  iterationOrder e order → annotations e !! name = None → name ∉ order.*1.
Proof.
  intros Ho Hnone [[n p] [-> Hin]]%list_elem_of_fmap.
  apply (iterationOrder_elem _ _ _ _ Ho) in Hin. simpl in Hnone. congruence.
Qed.

(** A registry built from a list of distinctly named parsers is visited in
    any rearrangement of that list. *)
Lemma iterationOrder_list_to_map (s : @resolver_Secret Secret) l order :
  NoDup l.*1 → order ≡ₚ l → iterationOrder (mkExtractor s (list_to_map l)) order.
Proof.
  intros Hnd Hp. unfold iterationOrder. cbn [annotations].
  by rewrite map_to_list_to_map.
Qed.

Lemma registryLiteral_names (pk : @parserPackages Upstream AffinityConfig Secret Dyn
                                    AuthCertificate DefaultBackend) cfg :
  (registryLiteral pk cfg).*1
  = ["BasicDigestAuth"; "ExternalAuth"; "CertificateAuth"; "EnableCORS";
     "HealthCheck"; "Whitelist"; "UsePortInRedirects"; "Proxy"; "RateLimit";
     "Redirect"; "SecureUpstream"; "SessionAffinity"; "SSLPassthrough";
     "ConfigurationSnippet"].
Proof. reflexivity. Qed.

Lemma registryLiteral_NoDup (pk : @parserPackages Upstream AffinityConfig Secret Dyn
                                    AuthCertificate DefaultBackend) cfg :
  NoDup (registryLiteral pk cfg).*1.
Proof. rewrite registryLiteral_names. compute_done. Qed.

(** The registry of [newAnnotationExtractor] holds no parser under the
    denial key. *)
Lemma registry_no_denied (pk : @parserPackages Upstream AffinityConfig Secret Dyn
                                 AuthCertificate DefaultBackend) cfg :
  annotations (newAnnotationExtractor pk cfg) !! DeniedKeyName = None.
Proof.
  cbn [newAnnotationExtractor annotations].
  apply not_elem_of_list_to_map_1. rewrite registryLiteral_names. compute_done.
Qed.

Lemma registry_lookup (pk : @parserPackages Upstream AffinityConfig Secret Dyn
                             AuthCertificate DefaultBackend) cfg name p :
  (name, p) ∈ registryLiteral pk cfg →
  annotations (newAnnotationExtractor pk cfg) !! name = Some p.
Proof.
  intros Hin. cbn [newAnnotationExtractor annotations].
  by apply elem_of_list_to_map_1; [apply registryLiteral_NoDup|].
Qed.

Lemma registry_iterationOrder (pk : @parserPackages Upstream AffinityConfig Secret Dyn
                                     AuthCertificate DefaultBackend) cfg order :
  order ≡ₚ registryLiteral pk cfg →
  iterationOrder (newAnnotationExtractor pk cfg) order.
Proof. apply iterationOrder_list_to_map, registryLiteral_NoDup. Qed.

(** *** Log lines and hard failures *)

Lemma loop_log_at ing pre name p post (line : logLine) :
  line ∈ (ExtractStep ing (foldl (ExtractStep ing) (∅, []) pre) (name, p)).2 →
  line ∈ (ExtractIn (pre ++ (name, p) :: post) ing).2.
Proof.
  intros Hin. unfold ExtractIn. rewrite loop_at.
  destruct (ExtractStep ing _ (name, p)) as [anns' log']. by apply loop_log_elem.
Qed.

(** Every line about a failed read comes from a parser that failed hard,
    and reports that parser's error under that parser's name. *)
Lemma loop_log_provenance ing l anns log (line : logLine) :
  line ∈ (foldl (ExtractStep ing) (anns, log) l).2 →
  line ∈ log
  ∨ ∃ name p, (name, p) ∈ l
      ∧ (line = V5_annotation name (GetNamespace ing) (GetName ing) (Parse p ing).1
         ∨ ∃ err, (Parse p ing).2 = Some err ∧ IsMissingAnnotations err = false
             ∧ (line = Errorf_reading name (GetNamespace ing) (GetName ing) err
                ∨ line = V5_reading name (GetNamespace ing) (GetName ing) err)).
Proof.
  revert anns log. induction l as [|[name p] l IH]; intros anns log;
    cbn [foldl]; [by left|].
  intros Hin.
  assert (∀ anns1 log1, ExtractStep ing (anns, log) (name, p) = (anns1, log1) →
    ∀ line', line' ∈ log1 → line' ∈ log
      ∨ line' = V5_annotation name (GetNamespace ing) (GetName ing) (Parse p ing).1
      ∨ ∃ err, (Parse p ing).2 = Some err ∧ IsMissingAnnotations err = false
          ∧ (line' = Errorf_reading name (GetNamespace ing) (GetName ing) err
             ∨ line' = V5_reading name (GetNamespace ing) (GetName ing) err)) as Hstep.
  { intros anns1 log1 Heq line'.
    destruct (Parse p ing) as [val [err|]] eqn:HP; cbn [fst snd].
    - destruct (IsMissingAnnotations err) eqn:Hm.
      + rewrite (ExtractStep_missing _ _ _ _ _ _ _ HP Hm) in Heq.
        injection Heq as <- <-. rewrite elem_of_app, list_elem_of_singleton. tauto.
      + destruct (anns !! DeniedKeyName) as [d|] eqn:Hd.
        * rewrite (ExtractStep_later_denial _ _ _ _ _ _ _ HP Hm) in Heq
            by (rewrite Hd; eauto).
          injection Heq as <- <-.
          rewrite !elem_of_app, !list_elem_of_singleton.
          intros [[?| ->]| ->]; [by left|by right; left|].
          right; right. exists err. eauto.
        * rewrite (ExtractStep_first_denial _ _ _ _ _ _ _ HP Hm Hd) in Heq.
          injection Heq as <- <-.
          rewrite !elem_of_app, !list_elem_of_singleton.
          intros [[?| ->]| ->]; [by left|by right; left|].
          right; right. exists err. eauto.
    - rewrite (ExtractStep_ok _ _ _ _ _ _ HP) in Heq.
      injection Heq as <- <-. rewrite elem_of_app, list_elem_of_singleton. tauto. }
  destruct (ExtractStep ing (anns, log) (name, p)) as [anns1 log1] eqn:Heq.
  destruct (IH _ _ Hin) as [Hin1 | (n & q & Hq & Hline)].
  - destruct (Hstep _ _ eq_refl _ Hin1) as [?|Hline]; [by left|].
    right. exists name, p. split; [by left|done].
  - right. exists n, q. split; [by right|done].
Qed.

(** Up to and including the first hard failure: the denial key holds that
    failure's error. *)
Lemma denial_set_at ing l1 name p val err l2 :
  DeniedKeyName ∉ (l1 ++ (name, p) :: l2).*1 →
  (∀ n q, (n, q) ∈ l1 → hardFailure ing q = false) →
  Parse p ing = (val, Some err) →
  IsMissingAnnotations err = false →
  (foldl (ExtractStep ing) (∅, []) l1).1 !! DeniedKeyName = None
  ∧ (foldl (ExtractStep ing) (∅, []) (l1 ++ (name, p) :: l2)).1 !! DeniedKeyName
    = Some (Error err).
Proof.
  intros Hfree Hsoft HP Hm.
  rewrite fmap_app, fmap_cons, not_elem_of_app, not_elem_of_cons in Hfree.
  destruct Hfree as (Hf1 & _ & Hf2).
  assert ((foldl (ExtractStep ing) (∅, []) l1).1 !! DeniedKeyName = None) as Hd
    by (by apply loop_no_denial).
  split; [done|]. rewrite loop_at.
  destruct (foldl (ExtractStep ing) (∅, []) l1) as [anns1 log1].
  rewrite (ExtractStep_first_denial _ _ _ _ _ _ _ HP Hm Hd).
  apply loop_preserved; [apply lookup_insert_eq|done].
Qed.

(** A hard failure after the first one is logged at verbosity 5 and leaves
    under its own name exactly the value it returned, if any. *)
Lemma later_hard_failure e ing l1 name p val err l2 n q val' err' :
  iterationOrder e (l1 ++ (name, p) :: l2) →
  annotations e !! DeniedKeyName = None →
  (∀ n q, (n, q) ∈ l1 → hardFailure ing q = false) →
  Parse p ing = (val, Some err) →
  IsMissingAnnotations err = false →
  (n, q) ∈ l2 →
  Parse q ing = (val', Some err') →
  IsMissingAnnotations err' = false →
  (ExtractIn (l1 ++ (name, p) :: l2) ing).1 !! n = val'
  ∧ V5_reading n (GetNamespace ing) (GetName ing) err'
      ∈ (ExtractIn (l1 ++ (name, p) :: l2) ing).2.
Proof.
  intros Ho Hreg Hsoft HP Hm Hin HQ Hm'.
  pose proof (iterationOrder_NoDup _ _ Ho) as Hnd.
  pose proof (iterationOrder_absent _ _ _ Ho Hreg) as Hfree.
  apply list_elem_of_split in Hin as (a & b & ->).
  assert (l1 ++ (name, p) :: a ++ (n, q) :: b
          = (l1 ++ (name, p) :: a) ++ (n, q) :: b) as Hassoc
    by (by rewrite <- app_assoc).
  rewrite Hassoc in *.
  assert (n ≠ DeniedKeyName) as Hn.
  { intros ->. apply Hfree. rewrite fmap_app, fmap_cons.
    apply elem_of_app. right. by left. }
  destruct (loop_entry_at ing _ _ _ _ Hnd Hn) as [Hnone ->].
  assert ((foldl (ExtractStep ing) (∅, []) (l1 ++ (name, p) :: a)).1 !! DeniedKeyName
          = Some (Error err)) as Hd.
  { apply (denial_set_at ing l1 name p val err a); [|done..].
    intros Hin. apply Hfree. rewrite (fmap_app _ (l1 ++ _)).
    apply elem_of_app. by left. }
  split; [|apply loop_log_at].
  all: destruct (foldl (ExtractStep ing) (∅, []) (l1 ++ (name, p) :: a)) as [anns2 log2].
  all: rewrite (ExtractStep_later_denial _ _ _ _ _ _ _ HQ Hm') by (cbn in Hd; rewrite Hd; eauto).
  - destruct val' as [v'|]; cbn [storeVal fst]; [apply lookup_insert_eq|done].
  - cbn [snd]. apply elem_of_app. right. by left.
Qed.

(** *** Successful parsers *)

(** [Extract] always returns: the registry has an iteration order and the
    loop is a total function of it. *)
Lemma Extract_total e ing : ∃ anns log, Extract e ing anns log.
Proof.
  exists (ExtractIn (map_to_list (annotations e)) ing).1,
         ((ExtractIn (map_to_list (annotations e)) ing).2),
         (map_to_list (annotations e)).
  split; [by unfold iterationOrder|apply surjective_pairing].
Qed.

(** C1.  Whatever the registry and the order in which [Extract] visits it,
    [Extract] returns a snapshot, and a parser that returns a non-nil value
    and no error has that value in the snapshot under its name, whatever
    the other parsers do. *)
Theorem Extract_keeps_every_success e ing name p v :
  annotations e !! name = Some p →
  Parse p ing = (Some v, None) →
  (∃ anns log, Extract e ing anns log)
  ∧ (∀ anns log, Extract e ing anns log → anns !! name = Some v).
Proof.
  intros Hreg HP. split; [apply Extract_total|].
  intros anns log (order & Ho & Hrun).
  pose proof (iterationOrder_NoDup _ _ Ho) as Hnd.
  apply (iterationOrder_elem _ _ _ _ Ho) in Hreg.
  apply list_elem_of_split in Hreg as (pre & post & ->).
  unfold ExtractIn in Hrun. rewrite loop_at in Hrun.
  destruct (foldl (ExtractStep ing) (∅, []) pre) as [anns1 log1].
  rewrite (ExtractStep_ok _ _ _ _ _ _ HP) in Hrun. cbn [storeVal] in Hrun.
  replace anns with (anns, log).1 by done. rewrite <- Hrun.
  apply loop_preserved; [apply lookup_insert_eq|].
  rewrite fmap_app, fmap_cons in Hnd.
  apply NoDup_app in Hnd as (_ & _ & Hpost). by apply NoDup_cons in Hpost as [Hpost _].
Qed.

(** *** Hard failures and the denial key *)

(** C2.  Whatever the order in which [Extract] visits the registry of
    [newAnnotationExtractor], the first parser to fail with an error other
    than the missing-annotation one puts that error under the denial key
    and is logged at error level.  A later parser that fails hard does not
    replace it: its error only reaches the log, at verbosity 5, and under
    its own name the snapshot holds the value it returned, if any.  Every
    entry but the denial key is the value of the parser of that name. *)
Theorem Extract_first_denial_wins
    (pk : @parserPackages Upstream AffinityConfig Secret Dyn
            AuthCertificate DefaultBackend) cfg ing l1 name p val err l2 :
  iterationOrder (newAnnotationExtractor pk cfg) (l1 ++ (name, p) :: l2) →
  (∀ n q, (n, q) ∈ l1 → hardFailure ing q = false) →
  Parse p ing = (val, Some err) →
  IsMissingAnnotations err = false →
  (ExtractIn (l1 ++ (name, p) :: l2) ing).1 !! DeniedKeyName = Some (Error err)
  ∧ Errorf_reading name (GetNamespace ing) (GetName ing) err
      ∈ (ExtractIn (l1 ++ (name, p) :: l2) ing).2
  ∧ (∀ n q val' err',
       (n, q) ∈ l2 →
       Parse q ing = (val', Some err') →
       IsMissingAnnotations err' = false →
       (ExtractIn (l1 ++ (name, p) :: l2) ing).1 !! n = val'
       ∧ V5_reading n (GetNamespace ing) (GetName ing) err'
           ∈ (ExtractIn (l1 ++ (name, p) :: l2) ing).2)
  ∧ (∀ k x,
       k ≠ DeniedKeyName →
       (ExtractIn (l1 ++ (name, p) :: l2) ing).1 !! k = Some x →
       ∃ q, annotations (newAnnotationExtractor pk cfg) !! k = Some q
            ∧ (Parse q ing).1 = Some x).
Proof.
  intros Ho Hsoft HP Hm.
  pose proof (registry_no_denied pk cfg) as Hreg.
  pose proof (iterationOrder_absent _ _ _ Ho Hreg) as Hfree.
  destruct (denial_set_at ing l1 name p val err l2 Hfree Hsoft HP Hm) as [Hd1 Hd].
  split; [exact Hd|]. split; [|split].
  - apply loop_log_at.
    destruct (foldl (ExtractStep ing) (∅, []) l1) as [anns1 log1].
    rewrite (ExtractStep_first_denial _ _ _ _ _ _ _ HP Hm Hd1).
    cbn [snd]. apply elem_of_app. right. by left.
  - intros n q val' err' Hin HQ Hm'.
    by apply (later_hard_failure _ ing l1 name p val err l2 n q val' err' Ho).
  - intros k x Hk Hx. unfold ExtractIn in Hx.
    apply loop_provenance in Hx as [Hx | [[-> _] | (q & Hin & Hq)]].
    + by rewrite lookup_empty in Hx.
    + done.
    + exists q. split; [|done]. by apply (iterationOrder_elem _ _ _ _ Ho).
Qed.

(** C10.  In the same setting, the value that the first hard-failing parser
    returned is not stored under its name, while every later hard-failing
    parser that returned a non-nil value has that value stored under its
    name. *)
Theorem Extract_hard_failure_values
    (pk : @parserPackages Upstream AffinityConfig Secret Dyn
            AuthCertificate DefaultBackend) cfg ing l1 name p val err l2 :
  iterationOrder (newAnnotationExtractor pk cfg) (l1 ++ (name, p) :: l2) →
  (∀ n q, (n, q) ∈ l1 → hardFailure ing q = false) →
  Parse p ing = (val, Some err) →
  IsMissingAnnotations err = false →
  (ExtractIn (l1 ++ (name, p) :: l2) ing).1 !! name = None
  ∧ (∀ n q v' err',
       (n, q) ∈ l2 →
       Parse q ing = (Some v', Some err') →
       IsMissingAnnotations err' = false →
       (ExtractIn (l1 ++ (name, p) :: l2) ing).1 !! n = Some v').
Proof.
  intros Ho Hsoft HP Hm.
  pose proof (registry_no_denied pk cfg) as Hreg.
  pose proof (iterationOrder_NoDup _ _ Ho) as Hnd.
  pose proof (iterationOrder_absent _ _ _ Ho Hreg) as Hfree.
  split.
  - assert (name ≠ DeniedKeyName) as Hn.
    { intros ->. apply Hfree. rewrite fmap_app, fmap_cons.
      apply elem_of_app. right. by left. }
    destruct (loop_entry_at ing _ _ _ _ Hnd Hn) as [Hnone ->].
    destruct (denial_set_at ing l1 name p val err l2 Hfree Hsoft HP Hm) as [Hd1 _].
    destruct (foldl (ExtractStep ing) (∅, []) l1) as [anns1 log1].
    rewrite (ExtractStep_first_denial _ _ _ _ _ _ _ HP Hm Hd1).
    cbn [fst]. by rewrite lookup_insert_ne.
  - intros n q v' err' Hin HQ Hm'.
    by apply (later_hard_failure _ ing l1 name p val err l2 n q (Some v') err' Ho).
Qed.

(** *** Missing annotations *)

(** C5.  A parser that reports the missing-annotation error is passed
    over: the snapshot is one that [Extract] returns for the registry
    without that parser, it has no entry under the parser's name (the
    denial key aside, which is never that parser's doing), and the log has
    no line about a failed read for it. *)
Theorem Extract_skips_missing e ing anns log name p val err :
  Extract e ing anns log →
  annotations e !! name = Some p →
  Parse p ing = (val, Some err) →
  IsMissingAnnotations err = true →
  (∃ log', Extract (mkExtractor (secretResolver e) (delete name (annotations e)))
             ing anns log')
  ∧ (name ≠ DeniedKeyName → anns !! name = None)
  ∧ (∀ ns nm err', (Errorf_reading name ns nm err' ∉ log)
                   ∧ (V5_reading name ns nm err' ∉ log)).
Proof.
  intros (order & Ho & Hrun) Hreg HP Hm.
  pose proof (iterationOrder_NoDup _ _ Ho) as Hnd.
  pose proof Hreg as Hin. apply (iterationOrder_elem _ _ _ _ Ho) in Hin.
  apply list_elem_of_split in Hin as (pre & post & ->).
  assert (anns = (ExtractIn (pre ++ post) ing).1) as Hanns.
  { replace anns with (ExtractIn (pre ++ (name, p) :: post) ing).1 by (by rewrite Hrun).
    unfold ExtractIn. rewrite loop_at, foldl_app.
    destruct (foldl (ExtractStep ing) (∅, []) pre) as [anns1 log1].
    rewrite (ExtractStep_missing _ _ _ _ _ _ _ HP Hm). by apply loop_snapshot. }
  assert (name ∉ (pre ++ post).*1) as Hfresh.
  { rewrite fmap_app, fmap_cons in Hnd.
    apply NoDup_app in Hnd as (_ & Hpre & Hpost). apply NoDup_cons in Hpost as [Hpost _].
    rewrite fmap_app, not_elem_of_app. split; [|done].
    intros Hin. apply (Hpre _ Hin). by left. }
  split; [|split].
  - exists ((ExtractIn (pre ++ post) ing).2), (pre ++ post). split.
    + unfold iterationOrder in *. cbn [annotations].
      apply (Permutation_cons_inv (a := (name, p))).
      rewrite (map_to_list_delete _ _ _ Hreg), <- Ho.
      apply Permutation_middle.
    + rewrite Hanns. by destruct (ExtractIn (pre ++ post) ing).
  - intros Hne. rewrite Hanns. unfold ExtractIn.
    rewrite loop_untouched by done. apply lookup_empty.
  - intros ns nm err'.
    replace log with (ExtractIn (pre ++ (name, p) :: post) ing).2 by (by rewrite Hrun).
    split; intros Hline; unfold ExtractIn in Hline;
      apply loop_log_provenance in Hline as [Hline | (n & q & Hq & Hline)];
      try (by apply elem_of_nil in Hline);
      (destruct Hline as [Hline | (e' & He' & Hm' & [Hline|Hline])];
       try discriminate Hline; injection Hline as -> _ _ _;
       apply (iterationOrder_elem _ _ _ _ Ho) in Hq;
       assert (q = p) as -> by congruence;
       rewrite HP in He'; cbn in He'; congruence).
Qed.

(** *** Typed accessors *)

Lemma parseNamed_registered e name ing p :
  annotations e !! name = Some p →
  parseNamed e name ing = Returns (Parse p ing).1.
Proof. intros Hreg. unfold parseNamed. rewrite Hreg. by destruct (Parse p ing). Qed.

Lemma assertBool_Returns val b : assertBool val = Returns b ↔ val = Some (Bool b).
Proof.
  split; [|by intros ->].
  destruct val as [[]|]; cbn; intros H; by inversion H.
Qed.

Lemma assertUpstream_Returns val (u : option Upstream) :
  assertUpstream val = Returns u ↔ val = Some (UpstreamPtr u).
Proof.
  split; [|by intros ->].
  destruct val as [[]|]; cbn; intros H; by inversion H.
Qed.

Lemma assertAffinityConfig_Returns val (a : option AffinityConfig) :
  assertAffinityConfig val = Returns a ↔ val = Some (AffinityConfigPtr a).
Proof.
  split; [|by intros ->].
  destruct val as [[]|]; cbn; intros H; by inversion H.
Qed.

(** On the extractor of [newAnnotationExtractor], each typed accessor looks
    at the parser of its own package and at nothing but the value that
    parser returns: it returns a value exactly when the parser's value has
    the accessor's type, and then it is that value, whether or not the
    parser also reported an error. *)
Lemma accessors_return_the_typed_value
    (pk : @parserPackages Upstream AffinityConfig Secret Dyn
            AuthCertificate DefaultBackend) cfg ing :
  (∀ b, SecureUpstream (newAnnotationExtractor pk cfg) ing = Returns b
        ↔ (Parse (secureupstream_NewParser pk) ing).1 = Some (Bool b))
  ∧ (∀ u, HealthCheck (newAnnotationExtractor pk cfg) ing = Returns u
          ↔ (Parse (healthcheck_NewParser pk cfg) ing).1 = Some (UpstreamPtr u))
  ∧ (∀ b, SSLPassthrough (newAnnotationExtractor pk cfg) ing = Returns b
          ↔ (Parse (sslpassthrough_NewParser pk) ing).1 = Some (Bool b))
  ∧ (∀ a, SessionAffinity (newAnnotationExtractor pk cfg) ing = Returns a
          ↔ (Parse (sessionaffinity_NewParser pk) ing).1 = Some (AffinityConfigPtr a)).
Proof.
  assert (∀ name p, (name, p) ∈ registryLiteral pk cfg →
            parseNamed (newAnnotationExtractor pk cfg) name ing
            = Returns (Parse p ing).1) as Hnamed.
  { intros name p Hin. by apply parseNamed_registered, registry_lookup. }
  unfold SecureUpstream, HealthCheck, SSLPassthrough, SessionAffinity.
  rewrite (Hnamed secureUpstream (secureupstream_NewParser pk)),
    (Hnamed healthCheck (healthcheck_NewParser pk cfg)),
    (Hnamed sslPassthrough (sslpassthrough_NewParser pk)),
    (Hnamed sessionAffinity (sessionaffinity_NewParser pk));
    [|unfold registryLiteral; rewrite !elem_of_cons; tauto..].
  split; [apply assertBool_Returns|].
  split; [apply assertUpstream_Returns|].
  split; [apply assertBool_Returns|apply assertAffinityConfig_Returns].
Qed.

(** C4.  With the four parsers returning values of their accessors' types,
    as the spec has them do, each typed accessor of the extractor of
    [newAnnotationExtractor] returns on every resource, and what it returns
    is the value of its one named parser, the parser's error being dropped:
    when the parser fails, the accessor still answers, with the value that
    came with the error. *)
Theorem accessors_always_return
    (pk : @parserPackages Upstream AffinityConfig Secret Dyn
            AuthCertificate DefaultBackend) cfg ing :
  typedParsers pk cfg →
  (∃ b, SecureUpstream (newAnnotationExtractor pk cfg) ing = Returns b
        ∧ (Parse (secureupstream_NewParser pk) ing).1 = Some (Bool b))
  ∧ (∃ u, HealthCheck (newAnnotationExtractor pk cfg) ing = Returns u
          ∧ (Parse (healthcheck_NewParser pk cfg) ing).1 = Some (UpstreamPtr u))
  ∧ (∃ b, SSLPassthrough (newAnnotationExtractor pk cfg) ing = Returns b
          ∧ (Parse (sslpassthrough_NewParser pk) ing).1 = Some (Bool b))
  ∧ (∃ a, SessionAffinity (newAnnotationExtractor pk cfg) ing = Returns a
          ∧ (Parse (sessionaffinity_NewParser pk) ing).1 = Some (AffinityConfigPtr a)).
Proof.
  intros (HSU & HHC & HSP & HSA).
  destruct (accessors_return_the_typed_value pk cfg ing) as (ISU & IHC & ISP & ISA).
  destruct (HSU ing) as [b Hb], (HHC ing) as [u Hu],
    (HSP ing) as [b' Hb'], (HSA ing) as [a Ha].
  split; [exists b; split; [by apply ISU|done]|].
  split; [exists u; split; [by apply IHC|done]|].
  split; [exists b'; split; [by apply ISP|done]|].
  exists a. split; [by apply ISA|done].
Qed.

(** Otherwise the unchecked type assertion panics. *)
Lemma SecureUpstream_panics e ing p :
  annotations e !! secureUpstream = Some p →
  (∀ b, (Parse p ing).1 ≠ Some (Bool b)) →
  SecureUpstream e ing = Panics InterfaceConversion.
Proof.
  intros Hreg Hty. unfold SecureUpstream.
  rewrite (parseNamed_registered _ _ _ _ Hreg).
  destruct (Parse p ing).1 as [[b| | | |]|]; try done. by destruct (Hty b).
Qed.

(** *** The certificate secret *)

(** [ContainsCertificateAuth] is the test for the annotation that reports
    no error: it answers false exactly on the empty-string sentinel. *)
Lemma ContainsCertificateAuth_false e ing :
  ContainsCertificateAuth e ing = false ↔ (GetStringAnnotation authTLSSecret ing).1 = "".
Proof.
  unfold ContainsCertificateAuth.
  destruct (GetStringAnnotation authTLSSecret ing) as [val0 err0]. cbn [fst].
  rewrite negb_false_iff. apply String.eqb_eq.
Qed.

(** C3, as amended.  When the auth-tls-secret annotation is absent or
    empty, [CertificateAuthSecret] returns no secret and an error that
    names the resource; otherwise it returns what [GetSecret] returns for
    the annotation's value, secret and error alike. *)
Theorem CertificateAuthSecret_absent_or_found e ing :
  ((GetStringAnnotation authTLSSecret ing).1 = "" →
   CertificateAuthSecret e ing
   = (None, Some (Errorf ("ingress rule " +:+ Namespace ing +:+ "/" +:+ Name ing
                          +:+ " does not contain the auth-tls-secret annotation"))))
  ∧ (∀ secretName : string,
       (GetStringAnnotation authTLSSecret ing).1 = secretName → secretName ≠ "" →
       CertificateAuthSecret e ing = GetSecret (secretResolver e) secretName).
Proof.
  unfold CertificateAuthSecret.
  destruct (GetStringAnnotation authTLSSecret ing) as [val0 err0]. cbn [fst].
  split.
  - by intros ->.
  - intros secretName -> Hne. by apply String.eqb_neq in Hne as ->.
Qed.

End controller_properties.

(** * Properties of the leader lookup *)

Section status_properties.

Context (LeaderElectionRecordAnnotationKey : string)
        (Unmarshal : string → error + LeaderElectionRecord).

(** C6.  A resource that is in the store and carries no lock annotation
    gives the empty identity, the resource itself and no error. *)
Theorem getCurrentLeader_unclaimed electionID namespace c endpoints :
  EndpointsGet c namespace electionID = inr endpoints →
  ep_Annotations endpoints !! LeaderElectionRecordAnnotationKey = None →
  getCurrentLeader LeaderElectionRecordAnnotationKey Unmarshal electionID namespace c = ("", Some endpoints, None).
Proof. intros Hget Hann. unfold getCurrentLeader. by rewrite Hget, Hann. Qed.

(** C7.  A lock annotation that does not parse as a lock record gives the
    parse error, the empty identity and no resource. *)
Theorem getCurrentLeader_malformed electionID namespace c endpoints payload err :
  EndpointsGet c namespace electionID = inr endpoints →
  ep_Annotations endpoints !! LeaderElectionRecordAnnotationKey = Some payload →
  Unmarshal payload = inl err →
  getCurrentLeader LeaderElectionRecordAnnotationKey Unmarshal electionID namespace c = ("", None, Some err).
Proof.
  intros Hget Hann Hjson. unfold getCurrentLeader.
  by rewrite Hget, Hann, Hjson.
Qed.

(** C8.  A lock annotation that parses as a lock record gives that
    record's holder identity, the resource and no error. *)
Theorem getCurrentLeader_holder electionID namespace c endpoints payload electionRecord :
  EndpointsGet c namespace electionID = inr endpoints →
  ep_Annotations endpoints !! LeaderElectionRecordAnnotationKey = Some payload →
  Unmarshal payload = inr electionRecord →
  getCurrentLeader LeaderElectionRecordAnnotationKey Unmarshal electionID namespace c
  = (HolderIdentity electionRecord, Some endpoints, None).
Proof.
  intros Hget Hann Hjson. unfold getCurrentLeader.
  by rewrite Hget, Hann, Hjson.
Qed.

(** The lookup reports an error only for a failed read or a payload that
    does not parse, and then with the empty identity and no resource. *)
Lemma getCurrentLeader_error electionID namespace c identity endpoints err :
  getCurrentLeader LeaderElectionRecordAnnotationKey Unmarshal electionID namespace c = (identity, endpoints, Some err) →
  identity = "" ∧ endpoints = None.
Proof.
  unfold getCurrentLeader.
  destruct (EndpointsGet c namespace electionID) as [e0|ep]; [by intros [= <- <- _]|].
  destruct (ep_Annotations ep !! LeaderElectionRecordAnnotationKey) as [payload|];
    [|by intros [=]].
  destruct (Unmarshal payload); by intros [=]; subst.
Qed.

End status_properties.

(** * The properties on the sample inputs *)

Module SampleRuns.
Import Samples.

(** Goes through the entries of a short explicit list. *)
Ltac each_entry H :=
  repeat (apply elem_of_cons in H as [H|H];
          [injection H as -> ->; try reflexivity|]);
  try (by apply elem_of_nil in H).

Lemma literalOrder_iteration : iterationOrder sampleExtractor literalOrder.
Proof. by apply registry_iterationOrder. Qed.

Lemma reverseOrder_iteration : iterationOrder sampleExtractor reverseOrder.
Proof. apply registry_iterationOrder, reverse_Permutation. Qed.

(** The spec's scenario: SSL passthrough parses, the client-certificate
    annotation is malformed; the snapshot has both the flag and the
    denial. *)
Example Extract_partial_success :
  (ExtractIn literalOrder sampleIngress).1 !! "SSLPassthrough" = Some (Bool true)
  ∧ (ExtractIn literalOrder sampleIngress).1 !! DeniedKeyName
    = Some (Error (errorString "empty value in ingress.kubernetes.io/auth-tls-secret")).
Proof. split; vm_compute; reflexivity. Qed.

(** The two orders disagree on which failure is surfaced and on whether
    the secure-upstream value is kept. *)
Example Extract_order_matters :
  (ExtractIn literalOrder sampleIngress).1 !! "SecureUpstream" = Some (Bool false)
  ∧ (ExtractIn reverseOrder sampleIngress).1 !! "SecureUpstream" = None
  ∧ (ExtractIn reverseOrder sampleIngress).1 !! DeniedKeyName
    = Some (Error (errorString "invalid boolean in ingress.kubernetes.io/secure-backends")).
Proof. repeat split; vm_compute; reflexivity. Qed.

Lemma Extract_keeps_every_success_witness :
  Extract sampleExtractor sampleIngress
    (ExtractIn reverseOrder sampleIngress).1 (ExtractIn reverseOrder sampleIngress).2
  ∧ (ExtractIn reverseOrder sampleIngress).1 !! "SSLPassthrough" = Some (Bool true).
Proof.
  assert (Extract sampleExtractor sampleIngress
            (ExtractIn reverseOrder sampleIngress).1
            (ExtractIn reverseOrder sampleIngress).2) as HE.
  { exists reverseOrder. split; [apply reverseOrder_iteration|apply surjective_pairing]. }
  split; [exact HE|].
  apply (proj2 (Extract_keeps_every_success sampleExtractor sampleIngress "SSLPassthrough"
                  (boolParser "ingress.kubernetes.io/ssl-passthrough") (Bool true)
                  ltac:(vm_compute; reflexivity) ltac:(reflexivity)) _ _ HE).
Defined.

Lemma Extract_first_denial_wins_witness :
  (ExtractIn literalOrder sampleIngress).1 !! DeniedKeyName
  = Some (Error (errorString "empty value in ingress.kubernetes.io/auth-tls-secret"))
  ∧ Errorf_reading "CertificateAuth" "default" "web"
      (errorString "empty value in ingress.kubernetes.io/auth-tls-secret")
      ∈ (ExtractIn literalOrder sampleIngress).2
  ∧ (ExtractIn literalOrder sampleIngress).1 !! "RateLimit" = None
  ∧ V5_reading "RateLimit" "default" "web"
      (errorString "empty value in ingress.kubernetes.io/limit-rps")
      ∈ (ExtractIn literalOrder sampleIngress).2.
Proof.
  destruct (Extract_first_denial_wins samplePackages sampleConfig sampleIngress
              (take 2 literalOrder) "CertificateAuth"
              (strictParser "ingress.kubernetes.io/auth-tls-secret") None
              (errorString "empty value in ingress.kubernetes.io/auth-tls-secret")
              (drop 3 literalOrder))
    as (Hdenied & Hlogged & Hlater & _).
  - apply literalOrder_iteration.
  - intros n q Hin. vm_compute in Hin. each_entry Hin.
  - reflexivity.
  - reflexivity.
  - split; [exact Hdenied|]. split; [exact Hlogged|].
    apply (Hlater "RateLimit" (strictParser "ingress.kubernetes.io/limit-rps") None
             (errorString "empty value in ingress.kubernetes.io/limit-rps"));
      [|reflexivity..].
    vm_compute. do 5 apply list_elem_of_further. apply list_elem_of_here.
Defined.

Lemma Extract_hard_failure_values_witness :
  (Parse (boolParser "ingress.kubernetes.io/secure-backends") sampleIngress).1
  = Some (Bool false)
  ∧ (ExtractIn reverseOrder sampleIngress).1 !! "SecureUpstream" = None
  ∧ (ExtractIn reverseOrder sampleIngress).1 !! "EnableCORS" = Some (Bool false).
Proof.
  split; [reflexivity|].
  destruct (Extract_hard_failure_values samplePackages sampleConfig sampleIngress
              (take 3 reverseOrder) "SecureUpstream"
              (boolParser "ingress.kubernetes.io/secure-backends") (Some (Bool false))
              (errorString "invalid boolean in ingress.kubernetes.io/secure-backends")
              (drop 4 reverseOrder))
    as (Hfirst & Hlater).
  - apply reverseOrder_iteration.
  - intros n q Hin. vm_compute in Hin. each_entry Hin.
  - reflexivity.
  - reflexivity.
  - split; [exact Hfirst|].
    apply (Hlater "EnableCORS" (boolParser "ingress.kubernetes.io/enable-cors") (Bool false)
             (errorString "invalid boolean in ingress.kubernetes.io/enable-cors"));
      [|reflexivity..].
    vm_compute. do 6 apply list_elem_of_further. apply list_elem_of_here.
Defined.

Lemma Extract_skips_missing_witness :
  (Parse (boolParser "ingress.kubernetes.io/use-port-in-redirects") sampleIngress)
  = (Some (Bool false), Some ErrMissingAnnotations)
  ∧ (ExtractIn literalOrder sampleIngress).1 !! "UsePortInRedirects" = None
  ∧ (Errorf_reading "UsePortInRedirects" "default" "web" ErrMissingAnnotations
       ∉ (ExtractIn literalOrder sampleIngress).2).
Proof.
  split; [reflexivity|].
  destruct (Extract_skips_missing sampleExtractor sampleIngress
              (ExtractIn literalOrder sampleIngress).1
              (ExtractIn literalOrder sampleIngress).2
              "UsePortInRedirects"
              (boolParser "ingress.kubernetes.io/use-port-in-redirects")
              (Some (Bool false)) ErrMissingAnnotations)
    as (_ & Habsent & Hsilent).
  - exists literalOrder. split; [apply literalOrder_iteration|apply surjective_pairing].
  - vm_compute; reflexivity.
  - reflexivity.
  - reflexivity.
  - split; [by apply Habsent|]. apply Hsilent.
Defined.

(** The secure-upstream parser fails hard on the sample resource, and the
    accessor answers with the value that came with the error. *)
Example accessors_on_sample :
  hardFailure sampleIngress (boolParser "ingress.kubernetes.io/secure-backends") = true
  ∧ SecureUpstream sampleExtractor sampleIngress = Returns false
  ∧ HealthCheck sampleExtractor sampleIngress = Returns (Some 5)
  ∧ SSLPassthrough sampleExtractor sampleIngress = Returns true
  ∧ SessionAffinity sampleExtractor sampleIngress = Returns None.
Proof. repeat split; vm_compute; reflexivity. Qed.

(** The sample parsers keep to the typed contract. *)
Lemma samplePackages_typed : typedParsers samplePackages sampleConfig.
Proof.
  assert (∀ annotation ing, ∃ b, (Parse (boolParser annotation) ing).1 = Some (Bool b))
    as Hbool.
  { intros annotation ing. unfold boolParser. cbn [Parse].
    destruct (Annotations ing !! annotation) as [s|]; [|by exists false].
    repeat case_match; by eexists. }
  split; [apply Hbool|]. split; [by exists (Some 5)|].
  split; [apply Hbool|by exists None].
Qed.

(** The secure-upstream parser fails hard on the sample resource, and the
    accessor answers with the value that came with the error. *)
Lemma accessors_always_return_witness :
  hardFailure sampleIngress (secureupstream_NewParser samplePackages) = true
  ∧ ∃ b, SecureUpstream sampleExtractor sampleIngress = Returns b
         ∧ (Parse (secureupstream_NewParser samplePackages) sampleIngress).1
           = Some (Bool b).
Proof.
  split; [reflexivity|].
  apply (proj1 (accessors_always_return samplePackages sampleConfig sampleIngress
                  samplePackages_typed)).
Defined.

Lemma CertificateAuthSecret_absent_or_found_witness :
  CertificateAuthSecret sampleExtractor plainIngress
  = (None, Some (errorString
       "ingress rule default/plain does not contain the auth-tls-secret annotation"))
  ∧ CertificateAuthSecret sampleExtractor (tlsIngress "default/ca")
    = (Some "ca-bundle", None)
  ∧ CertificateAuthSecret sampleExtractor (tlsIngress "default/nope")
    = (None, Some (errorString "secret default/nope does not exist")).
Proof.
  split; [|split].
  - by apply (proj1 (CertificateAuthSecret_absent_or_found sampleExtractor plainIngress)).
  - by apply (proj2 (CertificateAuthSecret_absent_or_found sampleExtractor
                       (tlsIngress "default/ca")) "default/ca").
  - by apply (proj2 (CertificateAuthSecret_absent_or_found sampleExtractor
                       (tlsIngress "default/nope")) "default/nope").
Defined.

(** C3, as stated, fails: without the annotation the accessor reports an
    error. *)
Lemma CertificateAuthSecret_absent_is_an_error :
  Annotations plainIngress !! authTLSSecret = None
  ∧ (GetStringAnnotation authTLSSecret plainIngress).1 = ""
  ∧ CertificateAuthSecret sampleExtractor plainIngress
    = (None, Some (errorString
         "ingress rule default/plain does not contain the auth-tls-secret annotation"))
  ∧ (CertificateAuthSecret sampleExtractor plainIngress).2 ≠ None.
Proof. repeat split; try reflexivity. vm_compute. discriminate. Qed.

(** The three lookups of [election_test.go]. *)
Example TestGetCurrentLeaderLeaderExist :
  getCurrentLeader annotationKey sampleUnmarshal "ingress-controller-test" "kube-system"
    (fk {[ annotationKey := leaderInfo ]})
  = ("currentLeader", Some (fkEndpoints {[ annotationKey := leaderInfo ]}), None).
Proof. reflexivity. Qed.

Example TestGetCurrentLeaderLeaderNotExist :
  getCurrentLeader annotationKey sampleUnmarshal "ingress-controller-test" "kube-system"
    (fk ∅)
  = ("", Some (fkEndpoints ∅), None).
Proof. reflexivity. Qed.

Example TestGetCurrentLeaderAnnotationError :
  (getCurrentLeader annotationKey sampleUnmarshal "ingress-controller-test" "kube-system"
     (fk {[ annotationKey := "just-test-error-leader-annotation" ]})).2
  ≠ None.
Proof. vm_compute. discriminate. Qed.

Lemma getCurrentLeader_unclaimed_witness :
  getCurrentLeader annotationKey sampleUnmarshal "ingress-controller-test" "kube-system"
    (fk ∅)
  = ("", Some (fkEndpoints ∅), None).
Proof.
  apply (getCurrentLeader_unclaimed annotationKey sampleUnmarshal
           "ingress-controller-test" "kube-system" (fk ∅) (fkEndpoints ∅));
    reflexivity.
Defined.

Lemma getCurrentLeader_malformed_witness :
  getCurrentLeader annotationKey sampleUnmarshal "ingress-controller-test" "kube-system"
    (fk {[ annotationKey := "just-test-error-leader-annotation" ]})
  = ("", None, Some (errorString "invalid character looking for beginning of value")).
Proof.
  apply (getCurrentLeader_malformed annotationKey sampleUnmarshal
           "ingress-controller-test" "kube-system" _
           (fkEndpoints {[ annotationKey := "just-test-error-leader-annotation" ]})
           "just-test-error-leader-annotation");
    reflexivity.
Defined.

Lemma getCurrentLeader_holder_witness :
  getCurrentLeader annotationKey sampleUnmarshal "ingress-controller-test" "kube-system"
    (fk {[ annotationKey := leaderInfoA ]})
  = ("A", Some (fkEndpoints {[ annotationKey := leaderInfoA ]}), None).
Proof.
  apply (getCurrentLeader_holder annotationKey sampleUnmarshal
           "ingress-controller-test" "kube-system" _
           (fkEndpoints {[ annotationKey := leaderInfoA ]}) leaderInfoA recordA);
    reflexivity.
Defined.

End SampleRuns.

(** * Further properties of the extractor *)

Section extractor_behaviour.

Context {Upstream AffinityConfig Secret Dyn AuthCertificate DefaultBackend : Type}.

Local Abbreviation any := (@any Upstream AffinityConfig Dyn).
Local Abbreviation IngressAnnotation := (@IngressAnnotation Upstream AffinityConfig Dyn).
Local Abbreviation annotationExtractor := (@annotationExtractor Upstream AffinityConfig Secret Dyn).
Local Abbreviation logLine := (@logLine Upstream AffinityConfig Dyn).

Implicit Types (ing : Ingress) (anns : gmap string any) (log : list logLine).
Implicit Types (order l : list (string * IngressAnnotation)).
Implicit Types (p q : IngressAnnotation) (name k : string).
Implicit Types (val : option any) (v x : any) (err : error).
Implicit Types (e : annotationExtractor).

(** *** Where entries come from *)

Lemma ExtractStep_entry ing anns log name p k x :
  (ExtractStep ing (anns, log) (name, p)).1 !! k = Some x →
  anns !! k = Some x
  ∨ (k = DeniedKeyName
     ∧ ∃ err, (Parse p ing).2 = Some err ∧ IsMissingAnnotations err = false ∧ x = Error err)
  ∨ (k = name ∧ (Parse p ing).1 = Some x
     ∧ ∀ err, (Parse p ing).2 = Some err → IsMissingAnnotations err = false).
Proof.
  destruct (Parse p ing) as [val [err|]] eqn:HP; cbn [fst snd].
  - destruct (IsMissingAnnotations err) eqn:Hm.
    + rewrite (ExtractStep_missing _ _ _ _ _ _ _ HP Hm). by left.
    + destruct (anns !! DeniedKeyName) as [d|] eqn:Hd.
      * rewrite (ExtractStep_later_denial _ _ _ _ _ _ _ HP Hm) by (rewrite Hd; eauto).
        cbn [fst]. destruct val as [v|]; cbn [storeVal]; [|by left].
        destruct (decide (k = name)) as [->|Hne].
        -- rewrite lookup_insert_eq. intros [= <-]. right; right.
           split; [done|]. split; [done|]. by intros err' [= <-].
        -- rewrite lookup_insert_ne by done. by left.
      * rewrite (ExtractStep_first_denial _ _ _ _ _ _ _ HP Hm Hd). cbn [fst].
        destruct (decide (k = DeniedKeyName)) as [->|Hne].
        -- rewrite lookup_insert_eq. intros [= <-]. right; left. split; [done|]. eauto.
        -- rewrite lookup_insert_ne by done. by left.
  - rewrite (ExtractStep_ok _ _ _ _ _ _ HP). cbn [fst].
    destruct val as [v|]; cbn [storeVal]; [|by left].
    destruct (decide (k = name)) as [->|Hne].
    + rewrite lookup_insert_eq. intros [= <-]. right; right. by repeat split.
    + rewrite lookup_insert_ne by done. by left.
Qed.

Lemma loop_entry ing l anns log k x :
  (foldl (ExtractStep ing) (anns, log) l).1 !! k = Some x →
  anns !! k = Some x
  ∨ (k = DeniedKeyName
     ∧ ∃ name p err, (name, p) ∈ l ∧ (Parse p ing).2 = Some err
                     ∧ IsMissingAnnotations err = false ∧ x = Error err)
  ∨ (∃ p, (k, p) ∈ l ∧ (Parse p ing).1 = Some x
          ∧ ∀ err, (Parse p ing).2 = Some err → IsMissingAnnotations err = false).
Proof.
  revert anns log. induction l as [|[name p] l IH]; intros anns log;
    cbn [foldl]; [by left|].
  destruct (ExtractStep ing (anns, log) (name, p)) as [anns' log'] eqn:Hstep.
  intros Hk. destruct (IH _ _ Hk) as [Hk' | [(-> & n & q & err & Hin & ?) | (q & Hin & ?)]].
  - replace anns' with (ExtractStep ing (anns, log) (name, p)).1 in Hk' by (by rewrite Hstep).
    apply ExtractStep_entry in Hk' as [?|[(-> & err & ?)|(-> & ?)]]; [by left| |].
    + right; left. split; [done|]. exists name, p, err. by split; [left|].
    + right; right. exists p. by split; [left|].
  - right; left. split; [done|]. exists n, q, err. by split; [right|].
  - right; right. exists q. by split; [right|].
Qed.

(** X1.  Every entry of a snapshot is accounted for: under the denial key,
    the error of a registered parser that failed hard; under any other key,
    or under the denial key if a parser has that name, the value returned by
    the parser registered under that key, which did not report a missing
    annotation. *)
Theorem Extract_entries e ing anns log k x :
  Extract e ing anns log →
  anns !! k = Some x →
  (k = DeniedKeyName
   ∧ ∃ name p err, annotations e !! name = Some p ∧ (Parse p ing).2 = Some err
                   ∧ IsMissingAnnotations err = false ∧ x = Error err)
  ∨ (∃ p, annotations e !! k = Some p ∧ (Parse p ing).1 = Some x
          ∧ ∀ err, (Parse p ing).2 = Some err → IsMissingAnnotations err = false).
Proof.
  intros (order & Ho & Hrun) Hk.
  replace anns with (ExtractIn order ing).1 in Hk by (by rewrite Hrun).
  apply loop_entry in Hk as [Hk | [(-> & n & q & err & Hin & ?) | (q & Hin & ?)]].
  - by rewrite lookup_empty in Hk.
  - left. split; [done|]. exists n, q, err.
    by split; [apply (iterationOrder_elem _ _ _ _ Ho)|].
  - right. exists q. by split; [apply (iterationOrder_elem _ _ _ _ Ho)|].
Qed.

(** *** The denial key as a fault indicator *)

(** Entries are never removed. *)
Lemma loop_is_Some ing l anns log k :
  is_Some (anns !! k) → is_Some ((foldl (ExtractStep ing) (anns, log) l).1 !! k).
Proof.
  revert anns log. induction l as [|[name p] l IH]; intros anns log Hk;
    cbn [foldl]; [done|].
  destruct (ExtractStep_cases ing anns log name p) as (anns' & log' & -> & Hc).
  apply IH.
  destruct Hc as [-> | [(_ & _ & err & _ & ->) | (v & _ & -> & _)]]; [done|..];
    rewrite lookup_insert_is_Some'; by right.
Qed.

(** Once a hard failure has been visited, the denial key is set. *)
Lemma loop_denied_after_hard ing l anns log name p :
  (name, p) ∈ l →
  hardFailure ing p = true →
  is_Some ((foldl (ExtractStep ing) (anns, log) l).1 !! DeniedKeyName).
Proof.
  revert anns log. induction l as [|[n q] l IH]; intros anns log Hin Hhard;
    [by apply elem_of_nil in Hin|].
  cbn [foldl]. apply elem_of_cons in Hin as [[= <- <-]|Hin].
  - unfold hardFailure in Hhard.
    destruct (Parse p ing) as [val [err|]] eqn:HP; cbn [snd] in Hhard; [|done].
    apply negb_true_iff in Hhard.
    destruct (anns !! DeniedKeyName) as [d|] eqn:Hd.
    + rewrite (ExtractStep_later_denial _ _ _ _ _ _ _ HP Hhard) by (rewrite Hd; eauto).
      apply loop_is_Some. destruct val as [v|]; cbn [storeVal]; [|by rewrite Hd].
      rewrite lookup_insert_is_Some'. right. by rewrite Hd.
    + rewrite (ExtractStep_first_denial _ _ _ _ _ _ _ HP Hhard Hd).
      apply loop_is_Some. rewrite lookup_insert_eq. eauto.
  - destruct (ExtractStep ing (anns, log) (n, q)). by apply IH.
Qed.

(** X2.  On a registry without a parser under the denial key, the snapshot
    has the denial key exactly when some registered parser failed with an
    error other than the missing-annotation one. *)
Theorem Extract_denied_iff_hard_failure e ing anns log :
  annotations e !! DeniedKeyName = None →
  Extract e ing anns log →
  is_Some (anns !! DeniedKeyName)
  ↔ ∃ name p, annotations e !! name = Some p ∧ hardFailure ing p = true.
Proof.
  intros Hreg (order & Ho & Hrun).
  replace anns with (ExtractIn order ing).1 by (by rewrite Hrun).
  split.
  - intros [x Hx].
    apply loop_entry in Hx as [Hx | [(_ & n & q & err & Hin & Herr & Hm & _) | (q & Hin & _)]].
    + by rewrite lookup_empty in Hx.
    + exists n, q. split; [by apply (iterationOrder_elem _ _ _ _ Ho)|].
      unfold hardFailure. by rewrite Herr, Hm.
    + apply (iterationOrder_elem _ _ _ _ Ho) in Hin. congruence.
  - intros (n & q & Hin & Hhard). apply (iterationOrder_elem _ _ _ _ Ho) in Hin.
    by apply (loop_denied_after_hard ing order ∅ [] n q).
Qed.

(** X10.  On a registry without a parser under the denial key, any parser
    that fails hard can be the one whose error is surfaced: some iteration
    order of the map makes [Extract] return a snapshot with that parser's
    error under the denial key. *)
Theorem Extract_any_hard_failure_may_surface e ing name p val err :
  annotations e !! DeniedKeyName = None →
  annotations e !! name = Some p →
  Parse p ing = (val, Some err) →
  IsMissingAnnotations err = false →
  ∃ anns log, Extract e ing anns log ∧ anns !! DeniedKeyName = Some (Error err).
Proof.
  intros Hreg Hp HP Hm.
  set (order := (name, p) :: map_to_list (delete name (annotations e))).
  assert (iterationOrder e order) as Ho
    by (unfold iterationOrder, order; by rewrite map_to_list_delete).
  exists (ExtractIn order ing).1, ((ExtractIn order ing).2).
  split; [exists order; split; [done|apply surjective_pairing]|].
  apply (denial_set_at ing [] name p val err (map_to_list (delete name (annotations e))));
    [|by intros n q ?%elem_of_nil|done..].
  by apply (iterationOrder_absent e).
Qed.

(** *** At most one hard failure: the snapshot does not depend on the order *)

(** At most one of the listed parsers fails hard. *)
Local Abbreviation atMostOneHard ing l :=
  (∀ n1 p1 n2 p2, (n1, p1) ∈ l → (n2, p2) ∈ l →
     hardFailure ing p1 = true → hardFailure ing p2 = true → n1 = n2).

Lemma soft_before ing pre name p post :
  NoDup (pre ++ (name, p) :: post).*1 →
  atMostOneHard ing (pre ++ (name, p) :: post) →
  hardFailure ing p = true →
  ∀ n q, (n, q) ∈ pre → hardFailure ing q = false.
Proof.
  intros Hnd Hone Hhard n q Hin.
  destruct (hardFailure ing q) eqn:Hq; [|done].
  assert (n = name) as ->.
  { apply (Hone n q name p); [|apply elem_of_app; right; left|done..].
    apply elem_of_app. by left. }
  rewrite fmap_app, fmap_cons in Hnd. apply NoDup_app in Hnd as (_ & Hpre & _).
  destruct (Hpre name); [|by left].
  apply list_elem_of_fmap. by exists (name, q).
Qed.

Lemma single_failure_own_entry ing order k q :
  NoDup order.*1 →
  DeniedKeyName ∉ order.*1 →
  atMostOneHard ing order →
  (k, q) ∈ order →
  (ExtractIn order ing).1 !! k = keptValue ing q.
Proof.
  intros Hnd Hfree Hone Hin.
  apply list_elem_of_split in Hin as (pre & post & ->).
  assert (k ≠ DeniedKeyName) as Hk.
  { intros ->. apply Hfree. rewrite fmap_app, fmap_cons.
    apply elem_of_app. right. by left. }
  destruct (loop_entry_at ing _ _ _ _ Hnd Hk) as [Hnone ->].
  unfold keptValue.
  destruct (Parse q ing) as [val [err|]] eqn:HP.
  - destruct (IsMissingAnnotations err) eqn:Hm.
    + destruct (foldl (ExtractStep ing) (∅, []) pre) as [anns1 log1].
      by rewrite (ExtractStep_missing _ _ _ _ _ _ _ HP Hm).
    + assert ((foldl (ExtractStep ing) (∅, []) pre).1 !! DeniedKeyName = None) as Hd.
      { apply loop_no_denial; [|by rewrite fmap_app, not_elem_of_app in Hfree;
                                   destruct Hfree|apply lookup_empty].
        apply (soft_before ing pre k q post Hnd Hone).
        unfold hardFailure. by rewrite HP; cbn; rewrite Hm. }
      destruct (foldl (ExtractStep ing) (∅, []) pre) as [anns1 log1].
      rewrite (ExtractStep_first_denial _ _ _ _ _ _ _ HP Hm Hd).
      cbn [fst]. by rewrite lookup_insert_ne.
  - destruct (foldl (ExtractStep ing) (∅, []) pre) as [anns1 log1].
    rewrite (ExtractStep_ok _ _ _ _ _ _ HP). cbn [fst] in *.
    destruct val as [v|]; cbn [storeVal]; [apply lookup_insert_eq|done].
Qed.

Lemma single_failure_denied ing order name p err :
  NoDup order.*1 →
  DeniedKeyName ∉ order.*1 →
  atMostOneHard ing order →
  (name, p) ∈ order →
  (Parse p ing).2 = Some err →
  IsMissingAnnotations err = false →
  (ExtractIn order ing).1 !! DeniedKeyName = Some (Error err).
Proof.
  intros Hnd Hfree Hone Hin Herr Hm.
  apply list_elem_of_split in Hin as (pre & post & ->).
  destruct (Parse p ing) as [val err0] eqn:HP. cbn [snd] in Herr. subst err0.
  apply (denial_set_at ing pre name p val err post); [done| |done..].
  apply (soft_before ing pre name p post Hnd Hone).
  unfold hardFailure. by rewrite HP; cbn; rewrite Hm.
Qed.

(** X3.  On a registry without a parser under the denial key, when at most
    one registered parser fails hard: each parser's name holds the value it
    returned if it reported no error and nothing otherwise; the denial key
    holds the error of the one hard failure, or nothing if there is none;
    no other key is present. *)
Theorem Extract_single_failure_snapshot e ing anns log :
  annotations e !! DeniedKeyName = None →
  (∀ n1 p1 n2 p2, annotations e !! n1 = Some p1 → annotations e !! n2 = Some p2 →
     hardFailure ing p1 = true → hardFailure ing p2 = true → n1 = n2) →
  Extract e ing anns log →
  (∀ k q, annotations e !! k = Some q → anns !! k = keptValue ing q)
  ∧ (∀ name p err, annotations e !! name = Some p → (Parse p ing).2 = Some err →
       IsMissingAnnotations err = false → anns !! DeniedKeyName = Some (Error err))
  ∧ ((∀ name p, annotations e !! name = Some p → hardFailure ing p = false) →
       anns !! DeniedKeyName = None)
  ∧ (∀ k, k ≠ DeniedKeyName → annotations e !! k = None → anns !! k = None).
Proof.
  intros Hreg Hone (order & Ho & Hrun).
  replace anns with (ExtractIn order ing).1 by (by rewrite Hrun).
  pose proof (iterationOrder_NoDup _ _ Ho) as Hnd.
  pose proof (iterationOrder_absent _ _ _ Ho Hreg) as Hfree.
  assert (atMostOneHard ing order) as Hone'.
  { intros n1 p1 n2 p2 H1 H2.
    apply (iterationOrder_elem _ _ _ _ Ho) in H1, H2. by apply Hone. }
  split; [|split; [|split]].
  - intros k q Hk. apply single_failure_own_entry; [done..|].
    by apply (iterationOrder_elem _ _ _ _ Ho).
  - intros name p err Hp Herr Hm.
    apply (single_failure_denied ing order name p err); [done..| |done|done].
    by apply (iterationOrder_elem _ _ _ _ Ho).
  - intros Hsoft. apply loop_no_denial; [|done|apply lookup_empty].
    intros n q Hin. apply (Hsoft n). by apply (iterationOrder_elem _ _ _ _ Ho).
  - intros k Hk Hnone. unfold ExtractIn. rewrite loop_untouched; [apply lookup_empty| |done].
    by apply (iterationOrder_absent _ _ _ Ho).
Qed.

(** X4.  On a registry without a parser under the denial key, when at most
    one registered parser fails hard, [Extract] returns the same snapshot
    whatever the order in which the map is visited. *)
Theorem Extract_snapshot_unique e ing anns1 log1 anns2 log2 :
  annotations e !! DeniedKeyName = None →
  (∀ n1 p1 n2 p2, annotations e !! n1 = Some p1 → annotations e !! n2 = Some p2 →
     hardFailure ing p1 = true → hardFailure ing p2 = true → n1 = n2) →
  Extract e ing anns1 log1 →
  Extract e ing anns2 log2 →
  anns1 = anns2.
Proof.
  intros Hreg Hone (o1 & Ho1 & Hrun1) (o2 & Ho2 & Hrun2).
  replace anns1 with (ExtractIn o1 ing).1 by (by rewrite Hrun1).
  replace anns2 with (ExtractIn o2 ing).1 by (by rewrite Hrun2).
  assert (∀ o, iterationOrder e o → NoDup o.*1 ∧ (DeniedKeyName ∉ o.*1) ∧ atMostOneHard ing o)
    as Hok.
  { intros o Ho. split; [by apply (iterationOrder_NoDup e)|].
    split; [by apply (iterationOrder_absent e)|].
    intros n1 p1 n2 p2 H1 H2.
    apply (iterationOrder_elem _ _ _ _ Ho) in H1, H2. by apply Hone. }
  destruct (Hok o1 Ho1) as (Hnd1 & Hfree1 & Hone1).
  destruct (Hok o2 Ho2) as (Hnd2 & Hfree2 & Hone2).
  apply map_eq. intros k.
  destruct (annotations e !! k) as [q|] eqn:Hk.
  - rewrite (single_failure_own_entry ing o1 k q), (single_failure_own_entry ing o2 k q);
      try done; by apply (iterationOrder_elem e).
  - destruct (decide (k = DeniedKeyName)) as [->|Hne].
    + destruct (decide (Exists (λ np, hardFailure ing np.2 = true) o1)) as [Hex|Hno].
      * apply Exists_exists in Hex as ([n p] & Hin & Hhard). cbn [snd] in Hhard.
        unfold hardFailure in Hhard.
        destruct (Parse p ing) as [val [err|]] eqn:HP; cbn [snd] in Hhard; [|done].
        apply negb_true_iff in Hhard.
        rewrite (single_failure_denied ing o1 n p err),
          (single_failure_denied ing o2 n p err); try done; try (by rewrite HP).
        by apply (iterationOrder_elem _ _ _ _ Ho2), (iterationOrder_elem _ _ _ _ Ho1).
      * assert (∀ o, iterationOrder e o → ∀ n p, (n, p) ∈ o → hardFailure ing p = false)
          as Hsoft.
        { intros o Ho n p Hin. destruct (hardFailure ing p) eqn:Hp; [|done].
          destruct Hno. apply Exists_exists. exists (n, p). split; [|done].
          by apply (iterationOrder_elem _ _ _ _ Ho1), (iterationOrder_elem _ _ _ _ Ho). }
        unfold ExtractIn.
        rewrite !loop_no_denial; try done; try apply lookup_empty; by apply Hsoft.
    + unfold ExtractIn. rewrite !loop_untouched; try done; by apply (iterationOrder_absent e).
Qed.

(** *** The log *)

Lemma annotationTrace_app log1 log2 :
  annotationTrace (log1 ++ log2) = annotationTrace log1 ++ annotationTrace log2.
Proof. apply omap_app. Qed.

(** What one iteration appends: the trace line, then at most one line about
    a failed read, which is at error level exactly when the iteration sets
    the denial key. *)
Lemma ExtractStep_log ing anns log name p :
  ∃ more,
    (ExtractStep ing (anns, log) (name, p)).2
    = log ++ V5_annotation name (GetNamespace ing) (GetName ing) (Parse p ing).1 :: more
    ∧ annotationTrace more = []
    ∧ (filter errorLevel more = []
       ∧ (name ≠ DeniedKeyName →
          (ExtractStep ing (anns, log) (name, p)).1 !! DeniedKeyName
          = anns !! DeniedKeyName)
       ∨ anns !! DeniedKeyName = None
         ∧ ∃ err, more = [Errorf_reading name (GetNamespace ing) (GetName ing) err]
                  ∧ (ExtractStep ing (anns, log) (name, p)).1
                    = <[DeniedKeyName := Error err]> anns).
Proof.
  assert (∀ val, name ≠ DeniedKeyName →
            storeVal name val anns !! DeniedKeyName = anns !! DeniedKeyName) as Hstore.
  { intros [v|] Hne; cbn [storeVal]; [by rewrite lookup_insert_ne|done]. }
  destruct (Parse p ing) as [val [err|]] eqn:HP; cbn [fst].
  - destruct (IsMissingAnnotations err) eqn:Hm.
    + rewrite (ExtractStep_missing _ _ _ _ _ _ _ HP Hm). cbn [fst snd].
      exists []. split; [done|]. split; [done|]. by left.
    + destruct (anns !! DeniedKeyName) as [d|] eqn:Hd.
      * rewrite (ExtractStep_later_denial _ _ _ _ _ _ _ HP Hm) by (rewrite Hd; eauto).
        exists [V5_reading name (GetNamespace ing) (GetName ing) err].
        cbn [fst snd]. rewrite <- app_assoc. split; [done|]. split; [done|].
        left. split; [done|]. intros Hne. by rewrite Hstore.
      * rewrite (ExtractStep_first_denial _ _ _ _ _ _ _ HP Hm Hd).
        exists [Errorf_reading name (GetNamespace ing) (GetName ing) err].
        cbn [fst snd]. rewrite <- app_assoc. split; [done|]. split; [done|].
        right. split; [done|]. by exists err.
  - rewrite (ExtractStep_ok _ _ _ _ _ _ HP). cbn [fst snd].
    exists []. split; [done|]. split; [done|]. left. split; [done|]. apply Hstore.
Qed.

(** X5.  Whatever the order, the log has one verbosity-5 trace line for
    each parser visited, in the order of the visit, with the value that
    parser returned, also for the parsers that failed or reported a
    missing annotation. *)
Theorem Extract_traces_every_parser ing order :
  annotationTrace (ExtractIn order ing).2
  = (λ entry, (entry.1, (Parse entry.2 ing).1)) <$> order.
Proof.
  unfold ExtractIn.
  assert (∀ anns log,
    annotationTrace (foldl (ExtractStep ing) (anns, log) order).2
    = annotationTrace log ++ ((λ entry, (entry.1, (Parse entry.2 ing).1)) <$> order)) as H.
  { induction order as [|[name p] l IH]; intros anns log; cbn [foldl].
    - by rewrite app_nil_r.
    - destruct (ExtractStep_log ing anns log name p) as (more & Hlog & Htrace & _).
      destruct (ExtractStep ing (anns, log) (name, p)) as [anns' log'].
      cbn [snd] in Hlog. subst log'. rewrite IH.
      rewrite annotationTrace_app, <- app_assoc. f_equal.
      change (V5_annotation name (GetNamespace ing) (GetName ing) (Parse p ing).1 :: more)
        with ([V5_annotation name (GetNamespace ing) (GetName ing) (Parse p ing).1] ++ more).
      rewrite annotationTrace_app, Htrace. by rewrite app_nil_r. }
  apply (H ∅ []).
Qed.

(** The error-level lines and the denial key go together: no such line
    while the key is unset, one once it is set, and the key holds the error
    the line reports. *)
Local Abbreviation errorLinesAgree anns log :=
  ((anns !! DeniedKeyName = None ↔ filter errorLevel log = [])
   ∧ length (filter errorLevel log) ≤ 1
   ∧ (∀ n ns nm err, Errorf_reading n ns nm err ∈ log →
        anns !! DeniedKeyName = Some (Error err))).

Lemma loop_error_lines ing l anns log :
  DeniedKeyName ∉ l.*1 →
  errorLinesAgree anns log →
  errorLinesAgree (foldl (ExtractStep ing) (anns, log) l).1
                  (foldl (ExtractStep ing) (anns, log) l).2.
Proof.
  revert anns log. induction l as [|[name p] l IH];
    intros anns log Hfree (Hnone & Hlen & Hagree); cbn [foldl]; [done|].
  rewrite fmap_cons, not_elem_of_cons in Hfree. destruct Hfree as [Hne Hfree].
  destruct (ExtractStep_log ing anns log name p) as (more & Hlog & _ & Hmore).
  destruct (ExtractStep ing (anns, log) (name, p)) as [anns' log'].
  cbn [fst snd] in Hlog, Hmore. subst log'.
  assert (filter errorLevel
            (V5_annotation name (GetNamespace ing) (GetName ing) (Parse p ing).1 :: more)
          = filter errorLevel more) as Hhead by done.
  destruct Hmore as [[Hquiet Hsame] | (Hd & err & -> & ->)].
  - specialize (Hsame (not_eq_sym Hne)).
    apply IH; [done|]. rewrite Hsame, filter_app, Hhead, Hquiet, app_nil_r.
    split; [done|]. split; [done|].
    intros n ns nm err' Hin.
    apply elem_of_app in Hin as [Hin|Hin]; [by apply (Hagree n ns nm)|].
    apply elem_of_cons in Hin as [Hin|Hin]; [done|].
    assert (Errorf_reading n ns nm err' ∈ filter errorLevel more) as Hf
      by (by apply list_elem_of_filter).
    rewrite Hquiet in Hf. by apply elem_of_nil in Hf.
  - apply IH; [done|].
    rewrite lookup_insert_eq, filter_app, (proj1 Hnone Hd), Hhead.
    split; [done|]. split; [change (1 ≤ 1); lia|].
    intros n ns nm err' Hin.
    apply elem_of_app in Hin as [Hin|Hin].
    + assert (Errorf_reading n ns nm err' ∈ filter errorLevel log) as Hf
        by (by apply list_elem_of_filter).
      rewrite (proj1 Hnone Hd) in Hf. by apply elem_of_nil in Hf.
    + apply elem_of_cons in Hin as [Hin|Hin]; [done|].
      apply list_elem_of_singleton in Hin. by injection Hin as _ _ _ ->.
Qed.

(** X6.  On a registry without a parser under the denial key, [Extract]
    writes an error-level line exactly when it sets the denial key, never
    more than one, and the error that line reports is the one found under
    the denial key of the snapshot. *)
Theorem Extract_one_error_line e ing anns log :
  annotations e !! DeniedKeyName = None →
  Extract e ing anns log →
  (anns !! DeniedKeyName = None ↔ filter errorLevel log = [])
  ∧ length (filter errorLevel log) ≤ 1
  ∧ (∀ n ns nm err, Errorf_reading n ns nm err ∈ log →
       anns !! DeniedKeyName = Some (Error err)).
Proof.
  intros Hreg (order & Ho & Hrun).
  pose proof (iterationOrder_absent _ _ _ Ho Hreg) as Hfree.
  replace anns with (ExtractIn order ing).1 by (by rewrite Hrun).
  replace log with (ExtractIn order ing).2 by (by rewrite Hrun).
  apply loop_error_lines; [done|].
  split; [done|]. split; [cbn; lia|].
  intros n ns nm err Hin. by apply elem_of_nil in Hin.
Qed.

(** *** The accessors and the snapshot *)

(** X7.  On the extractor of [newAnnotationExtractor], the typed accessors
    agree with the snapshot: when the snapshot holds a value of the
    accessor's type under the accessor's name, the accessor returns that
    value. *)
Theorem accessors_agree_with_snapshot
    (pk : @parserPackages Upstream AffinityConfig Secret Dyn
            AuthCertificate DefaultBackend) cfg ing anns log :
  Extract (newAnnotationExtractor pk cfg) ing anns log →
  (∀ b, anns !! secureUpstream = Some (Bool b) →
        SecureUpstream (newAnnotationExtractor pk cfg) ing = Returns b)
  ∧ (∀ u, anns !! healthCheck = Some (UpstreamPtr u) →
          HealthCheck (newAnnotationExtractor pk cfg) ing = Returns u)
  ∧ (∀ b, anns !! sslPassthrough = Some (Bool b) →
          SSLPassthrough (newAnnotationExtractor pk cfg) ing = Returns b)
  ∧ (∀ a, anns !! sessionAffinity = Some (AffinityConfigPtr a) →
          SessionAffinity (newAnnotationExtractor pk cfg) ing = Returns a).
Proof.
  intros (order & Ho & Hrun).
  assert (∀ name x, name ≠ DeniedKeyName → anns !! name = Some x →
            parseNamed (newAnnotationExtractor pk cfg) name ing = Returns (Some x)) as Hnamed.
  { intros name x Hne Hx.
    replace anns with (ExtractIn order ing).1 in Hx by (by rewrite Hrun).
    apply loop_entry in Hx as [Hx | [[-> _] | (q & Hin & Hq & _)]];
      [by rewrite lookup_empty in Hx|done|].
    apply (iterationOrder_elem _ _ _ _ Ho) in Hin.
    by rewrite (parseNamed_registered _ _ _ _ Hin), Hq. }
  unfold SecureUpstream, HealthCheck, SSLPassthrough, SessionAffinity.
  assert (secureUpstream ≠ DeniedKeyName ∧ healthCheck ≠ DeniedKeyName
          ∧ sslPassthrough ≠ DeniedKeyName ∧ sessionAffinity ≠ DeniedKeyName)
    as (H1 & H2 & H3 & H4) by done.
  split; [intros y Hy; by rewrite (Hnamed _ _ H1 Hy)|].
  split; [intros y Hy; by rewrite (Hnamed _ _ H2 Hy)|].
  split; intros y Hy; [by rewrite (Hnamed _ _ H3 Hy)|by rewrite (Hnamed _ _ H4 Hy)].
Qed.

Lemma assertBool_Panics val pn :
  assertBool val = Panics pn ↔ pn = InterfaceConversion ∧ ∀ b, val ≠ Some (Bool b).
Proof.
  split.
  - destruct val as [[]|]; cbn; intros H; inversion H; by split.
  - intros [-> Hty]. destruct val as [[b| | | |]|]; cbn; try done. by destruct (Hty b).
Qed.

Lemma assertUpstream_Panics val pn :
  assertUpstream val = Panics pn
  ↔ pn = InterfaceConversion ∧ ∀ u : option Upstream, val ≠ Some (UpstreamPtr u).
Proof.
  split.
  - destruct val as [[]|]; cbn; intros H; inversion H; by split.
  - intros [-> Hty]. destruct val as [[|u| | |]|]; cbn; try done. by destruct (Hty u).
Qed.

Lemma assertAffinityConfig_Panics val pn :
  assertAffinityConfig val = Panics pn
  ↔ pn = InterfaceConversion
    ∧ ∀ a : option AffinityConfig, val ≠ Some (AffinityConfigPtr a).
Proof.
  split.
  - destruct val as [[]|]; cbn; intros H; inversion H; by split.
  - intros [-> Hty]. destruct val as [[| |a| |]|]; cbn; try done. by destruct (Hty a).
Qed.

(** X8.  On the extractor of [newAnnotationExtractor], a typed accessor
    never panics on the registry lookup: it panics only on the type
    assertion, exactly when its parser's value is nil or of another type. *)
Theorem accessors_panic_only_on_assertion
    (pk : @parserPackages Upstream AffinityConfig Secret Dyn
            AuthCertificate DefaultBackend) cfg ing (pn : panic) :
  (SecureUpstream (newAnnotationExtractor pk cfg) ing = Panics pn
   ↔ pn = InterfaceConversion
     ∧ ∀ b, (Parse (secureupstream_NewParser pk) ing).1 ≠ Some (Bool b))
  ∧ (HealthCheck (newAnnotationExtractor pk cfg) ing = Panics pn
     ↔ pn = InterfaceConversion
       ∧ ∀ u, (Parse (healthcheck_NewParser pk cfg) ing).1 ≠ Some (UpstreamPtr u))
  ∧ (SSLPassthrough (newAnnotationExtractor pk cfg) ing = Panics pn
     ↔ pn = InterfaceConversion
       ∧ ∀ b, (Parse (sslpassthrough_NewParser pk) ing).1 ≠ Some (Bool b))
  ∧ (SessionAffinity (newAnnotationExtractor pk cfg) ing = Panics pn
     ↔ pn = InterfaceConversion
       ∧ ∀ a, (Parse (sessionaffinity_NewParser pk) ing).1 ≠ Some (AffinityConfigPtr a)).
Proof.
  assert (∀ name p, (name, p) ∈ registryLiteral pk cfg →
            parseNamed (newAnnotationExtractor pk cfg) name ing
            = Returns (Parse p ing).1) as Hnamed.
  { intros name p Hin. by apply parseNamed_registered, registry_lookup. }
  unfold SecureUpstream, HealthCheck, SSLPassthrough, SessionAffinity.
  rewrite (Hnamed secureUpstream (secureupstream_NewParser pk)),
    (Hnamed healthCheck (healthcheck_NewParser pk cfg)),
    (Hnamed sslPassthrough (sslpassthrough_NewParser pk)),
    (Hnamed sessionAffinity (sessionaffinity_NewParser pk));
    [|unfold registryLiteral; rewrite !elem_of_cons; tauto..].
  split; [apply assertBool_Panics|].
  split; [apply assertUpstream_Panics|].
  split; [apply assertBool_Panics|apply assertAffinityConfig_Panics].
Qed.

(** *** The certificate secret and its test *)

(** X9.  [ContainsCertificateAuth] answers true exactly when the
    auth-tls-secret annotation is there with a non-empty value, and it
    decides what [CertificateAuthSecret] does: on true, the answer of
    [GetSecret] for that value; on false, no secret and the error naming
    the resource, [GetSecret] not being asked. *)
Theorem CertificateAuthSecret_follows_Contains e ing :
  (ContainsCertificateAuth e ing = true
   ↔ ∃ secretName : string, Annotations ing !! authTLSSecret = Some secretName
                            ∧ secretName ≠ "")
  ∧ CertificateAuthSecret e ing
    = if ContainsCertificateAuth e ing
      then GetSecret (secretResolver e) (GetStringAnnotation authTLSSecret ing).1
      else (None,
            Some (Errorf ("ingress rule " +:+ Namespace ing +:+ "/" +:+ Name ing
                          +:+ " does not contain the auth-tls-secret annotation"))).
Proof.
  unfold ContainsCertificateAuth, CertificateAuthSecret, GetStringAnnotation.
  destruct (Annotations ing !! authTLSSecret) as [s|]; cbn [fst].
  - destruct (String.eqb s "") eqn:Hs; cbn [negb].
    + apply String.eqb_eq in Hs as ->. split; [|done].
      split; [done|]. by intros (s' & [= <-] & Hne).
    + apply String.eqb_neq in Hs. split; [|done].
      split; [|done]. intros _. by exists s.
  - split; [|done]. split; [done|]. by intros (s' & [=] & _).
Qed.

End extractor_behaviour.

(** * The further properties on the sample inputs *)

Module MoreSampleRuns.
Import Samples.

Lemma sample_registered name (p : sParser) :
  annotations sampleExtractor !! name = Some p → (name, p) ∈ literalOrder.
Proof. apply elem_of_list_to_map_2. Qed.

(** On the resource whose secure-backends flag is empty, the secure-upstream
    parser is the only one to fail hard. *)
Lemma faultyIngress_failures :
  Forall (λ entry : string * sParser,
            hardFailure faultyIngress entry.2 = true → entry.1 = "SecureUpstream")
         literalOrder.
Proof. compute_done. Qed.

Lemma faultyIngress_one_failure n1 (p1 : sParser) n2 (p2 : sParser) :
  annotations sampleExtractor !! n1 = Some p1 →
  annotations sampleExtractor !! n2 = Some p2 →
  hardFailure faultyIngress p1 = true →
  hardFailure faultyIngress p2 = true →
  n1 = n2.
Proof.
  intros H1%sample_registered H2%sample_registered Hh1 Hh2.
  pose proof faultyIngress_failures as Hall. rewrite Forall_forall in Hall.
  rewrite (Hall _ H1 Hh1 : n1 = _). by rewrite (Hall _ H2 Hh2 : n2 = _).
Qed.

Lemma literal_run ing :
  Extract sampleExtractor ing (ExtractIn literalOrder ing).1 (ExtractIn literalOrder ing).2.
Proof.
  exists literalOrder. split; [by apply registry_iterationOrder|apply surjective_pairing].
Qed.

Lemma reverse_run ing :
  Extract sampleExtractor ing (ExtractIn reverseOrder ing).1 (ExtractIn reverseOrder ing).2.
Proof.
  exists reverseOrder.
  split; [apply registry_iterationOrder, reverse_Permutation|apply surjective_pairing].
Qed.

Lemma Extract_entries_witness :
  ∃ p : sParser, annotations sampleExtractor !! "SecureUpstream" = Some p
                 ∧ (Parse p sampleIngress).1 = Some (Bool false).
Proof.
  destruct (Extract_entries sampleExtractor sampleIngress _ _ "SecureUpstream" (Bool false)
              (literal_run sampleIngress) ltac:(vm_compute; reflexivity))
    as [[Hk _] | (p & Hp & Hv & _)]; [discriminate Hk|].
  by exists p.
Defined.

Lemma Extract_denied_iff_hard_failure_witness :
  is_Some ((ExtractIn reverseOrder sampleIngress).1 !! DeniedKeyName).
Proof.
  apply (Extract_denied_iff_hard_failure sampleExtractor sampleIngress _ _
           (registry_no_denied samplePackages sampleConfig) (reverse_run sampleIngress)).
  exists "RateLimit", (strictParser "ingress.kubernetes.io/limit-rps").
  split; vm_compute; reflexivity.
Defined.

Lemma Extract_any_hard_failure_may_surface_witness :
  ∃ anns log, Extract sampleExtractor sampleIngress anns log
    ∧ anns !! DeniedKeyName
      = Some (Error (errorString "empty value in ingress.kubernetes.io/limit-rps")).
Proof.
  apply (Extract_any_hard_failure_may_surface sampleExtractor sampleIngress "RateLimit"
           (strictParser "ingress.kubernetes.io/limit-rps") None).
  - apply registry_no_denied.
  - vm_compute; reflexivity.
  - reflexivity.
  - reflexivity.
Defined.

Lemma Extract_single_failure_snapshot_witness :
  (ExtractIn reverseOrder faultyIngress).1 !! "SecureUpstream" = None
  ∧ (ExtractIn reverseOrder faultyIngress).1 !! "HealthCheck" = Some (UpstreamPtr (Some 5))
  ∧ (ExtractIn reverseOrder faultyIngress).1 !! DeniedKeyName
    = Some (Error (errorString "invalid boolean in ingress.kubernetes.io/secure-backends"))
  ∧ (ExtractIn reverseOrder faultyIngress).1 !! "Unregistered" = None.
Proof.
  destruct (Extract_single_failure_snapshot sampleExtractor faultyIngress _ _
              (registry_no_denied samplePackages sampleConfig)
              faultyIngress_one_failure (reverse_run faultyIngress))
    as (Hown & Hdenied & _ & Hother).
  split; [|split; [|split]].
  - apply (Hown "SecureUpstream" (boolParser "ingress.kubernetes.io/secure-backends")).
    vm_compute; reflexivity.
  - apply (Hown "HealthCheck" (defaultParser (UpstreamPtr (Some 5)))).
    vm_compute; reflexivity.
  - apply (Hdenied "SecureUpstream" (boolParser "ingress.kubernetes.io/secure-backends"));
      vm_compute; reflexivity.
  - apply Hother; [discriminate|vm_compute; reflexivity].
Defined.

Lemma Extract_snapshot_unique_witness :
  (ExtractIn literalOrder faultyIngress).1 = (ExtractIn reverseOrder faultyIngress).1.
Proof.
  apply (Extract_snapshot_unique sampleExtractor faultyIngress _ _ _ _
           (registry_no_denied samplePackages sampleConfig)
           faultyIngress_one_failure (literal_run faultyIngress) (reverse_run faultyIngress)).
Defined.

Lemma Extract_one_error_line_witness :
  length (filter errorLevel (ExtractIn literalOrder sampleIngress).2) ≤ 1
  ∧ (ExtractIn literalOrder sampleIngress).1 !! DeniedKeyName
    = Some (Error (errorString "empty value in ingress.kubernetes.io/auth-tls-secret")).
Proof.
  destruct (Extract_one_error_line sampleExtractor sampleIngress _ _
              (registry_no_denied samplePackages sampleConfig) (literal_run sampleIngress))
    as (_ & Hlen & Hagree).
  split; [exact Hlen|].
  apply (Hagree "CertificateAuth" "default" "web").
  vm_compute. do 3 apply list_elem_of_further. apply list_elem_of_here.
Defined.

Lemma accessors_agree_with_snapshot_witness :
  (ExtractIn literalOrder sampleIngress).1 !! "SecureUpstream" = Some (Bool false)
  ∧ SecureUpstream sampleExtractor sampleIngress = Returns false.
Proof.
  assert ((ExtractIn literalOrder sampleIngress).1 !! "SecureUpstream" = Some (Bool false))
    as Hsnap by (vm_compute; reflexivity).
  split; [exact Hsnap|].
  apply (proj1 (accessors_agree_with_snapshot samplePackages sampleConfig sampleIngress _ _
                  (literal_run sampleIngress)) false Hsnap).
Defined.

(** With the annotation missing, the accessor still answers with the
    parser's default while the snapshot has no entry. *)
Example accessor_without_snapshot_entry :
  SSLPassthrough sampleExtractor plainIngress = Returns false
  ∧ (ExtractIn literalOrder plainIngress).1 !! "SSLPassthrough" = None.
Proof. split; vm_compute; reflexivity. Qed.

End MoreSampleRuns.
